(** * A shallow embedding of the crypto analysis dashboard back end

    The modules below embed, function by function, the Python sources
    [utils.py], [api_service.py], [ai_analyzer.py], [ml_predictor.py],
    [data_processor.py] and [database.py], then prove the properties of the
    specification about them.

    Conventions used throughout:
    - Python floats are modelled as exact rationals [Q]; where the code
      produces non-finite floats (pandas division by zero, NaN markers) the
      extended type [flt] of module [Frame] is used.
    - A [datetime] is an integer number of microseconds since
      0001-01-01 00:00:00 (naive, proleptic Gregorian, as CPython's
      ordinal); a [timedelta] is an integer number of microseconds.
    - Effectful code runs in a reader/state/exception monad [M]: the reader
      part is the outside world (network, clock, random source), the state
      counts requests and random draws and keeps an event log, and the
      exception part stands for Python exceptions. *)

From Stdlib Require Import String Ascii List ZArith QArith Qround Qabs Qminmax Bool Lia Lqa Sorted.
Import ListNotations.
Set Warnings "-register-all -abstract-large-number".

(* ------------------------------------------------------------------ *)
(** ** Python values, exceptions and the effect monad *)

Module Py.

Local Open Scope string_scope.

(** Python exceptions that the modelled code can raise. *)
Inductive exn :=
| RequestException (status : option Z)  (* requests.exceptions.*, with e.response.status_code *)
| KeyError
| IndexError
| TypeError
| AttributeError
| ZeroDivisionError
| OverflowError
| ValueError (msg : string)
| IntegrityError          (* sqlite3.IntegrityError *)
| OperationalError        (* sqlite3.OperationalError *)
| LibraryError (name : string).

Inductive result (A : Type) :=
| Ok (a : A)
| Exc (e : exn).
Arguments Ok {A} a.
Arguments Exc {A} e.

(** Decoded JSON, as [response.json()] returns it. *)
Inductive json :=
| JNull
| JBool (b : bool)
| JNum (q : Q)
| JStr (s : string)
| JArr (xs : list json)
| JObj (kvs : list (string * json)).

(** Python truthiness of a decoded JSON value. *)
Definition truthy (v : json) : bool :=
  match v with
  | JNull => false
  | JBool b => b
  | JNum q => negb (Qeq_bool q 0)
  | JStr s => negb (String.eqb s "")
  | JArr xs => match xs with [] => false | _ => true end
  | JObj kvs => match kvs with [] => false | _ => true end
  end.

(** [str.upper()] on ASCII text, where it maps exactly [a-z] to [A-Z].
    Strings are modelled as byte strings; on a non-ASCII character
    Python's Unicode mapping (e.g. [é] to [É], [ß] to [SS]) is not
    modelled here, so facts about upper-cased text assume ASCII text
    ([is_ascii_str]). *)
Definition ascii_upper (c : ascii) : ascii :=
  let n := nat_of_ascii c in
  if (97 <=? n)%nat && (n <=? 122)%nat then ascii_of_nat (n - 32) else c.

Fixpoint str_upper (s : string) : string :=
  match s with
  | EmptyString => EmptyString
  | String c s' => String (ascii_upper c) (str_upper s')
  end.

(** Every character of [s] is ASCII (code below 128). *)
Fixpoint is_ascii_str (s : string) : bool :=
  match s with
  | EmptyString => true
  | String c s' => (nat_of_ascii c <? 128)%nat && is_ascii_str s'
  end.

(** ASCII [str.lower()]. *)
Definition ascii_lower (c : ascii) : ascii :=
  let n := nat_of_ascii c in
  if (65 <=? n)%nat && (n <=? 90)%nat then ascii_of_nat (n + 32) else c.

Fixpoint str_lower (s : string) : string :=
  match s with
  | EmptyString => EmptyString
  | String c s' => String (ascii_lower c) (str_lower s')
  end.

(** [math.sqrt] / [np.sqrt] on a non-negative rational: the exact root
    truncated to a multiple of 2^-40 of the denominator. *)
Definition qsqrt (q : Q) : Q :=
  let n := Qnum q in
  let d := Zpos (Qden q) in
  if Z.leb n 0 then 0%Q
  else Qmake (Z.sqrt (n * d * 2 ^ 80)) (Pos.mul (Qden q) (2 ^ 40)%positive).

Fixpoint assoc {B} (k : string) (kvs : list (string * B)) : option B :=
  match kvs with
  | [] => None
  | (k', v) :: rest => if String.eqb k k' then Some v else assoc k rest
  end.

End Py.

Module Api.

Import Py.
Local Open Scope string_scope.
Local Open Scope Z_scope.

(** What one HTTP request of [requests.get] followed by
    [raise_for_status()] and [json()] does. *)
Inductive http_outcome :=
| HttpOk (body : json)        (* 2xx, body decodes *)
| HttpStatus (code : Z)       (* HTTPError from raise_for_status, e.response.status_code = code *)
| HttpNoResponse              (* ConnectionError, Timeout: e.response is None *)
| HttpBadJson.                (* JSONDecodeError from json(): no response attached *)

(** The world the code talks to. *)
Record env := mkenv {
  http_get : nat -> string -> http_outcome;   (* n-th request of the run, to this url *)
  random_at : nat -> Q;                       (* n-th value of random.random() *)
  clock : Z;                                  (* datetime.now() *)
  fromtimestamp : Q -> option Z;              (* datetime.fromtimestamp; None: out of range *)
  to_timestamp : Z -> Z;                      (* int(dt.timestamp()) in local time *)
  download : string -> option (string * list string);
      (* requests.get(url, timeout=30): None raises; Some (text, pdf page texts) *)
  llm_run : nat -> string -> option string    (* n-th LLM chain run; None raises *)
}.

Inductive event :=
| EvRequest (url : string)
| EvSleep (seconds : Q)
| EvPrint (context : string) (e : exn)
| EvDownload (url : string)
| EvLLM (prompt : string).

Record st := mkst { nreq : nat; ndraw : nat; nllm : nat; log : list event }.

Definition M (A : Type) : Type := env -> st -> result A * st.

Definition ret {A} (a : A) : M A := fun _ s => (Ok a, s).
Definition raise {A} (x : exn) : M A := fun _ s => (Exc x, s).
Definition bind {A B} (m : M A) (f : A -> M B) : M B :=
  fun e s => match m e s with
             | (Ok a, s') => f a e s'
             | (Exc x, s') => (Exc x, s')
             end.

(** [try: m  except Exception as x: h x]; effects before the exception stay. *)
Definition try_except {A} (m : M A) (h : exn -> M A) : M A :=
  fun e s => match m e s with
             | (Ok a, s') => (Ok a, s')
             | (Exc x, s') => h x e s'
             end.

Notation "x <- m ;; k" := (bind m (fun x => k))
  (at level 61, m at next level, right associativity).
Notation "m ;;; k" := (bind m (fun _ => k))
  (at level 61, right associativity).

Definition get_env : M env := fun e s => (Ok e, s).

Definition emit (ev : event) : M unit :=
  fun _ s => (Ok tt, mkst (nreq s) (ndraw s) (nllm s) (log s ++ [ev])).

Definition print_error (context : string) (x : exn) : M unit := emit (EvPrint context x).

Definition sleep (t : Q) : M unit := emit (EvSleep t).

Definition now : M Z := fun e s => (Ok (clock e), s).

(** [requests.get(...); raise_for_status(); json()], one network round trip. *)
Definition http_request (url : string) : M http_outcome :=
  fun e s => (Ok (http_get e (nreq s) url),
              mkst (S (nreq s)) (ndraw s) (nllm s) (log s ++ [EvRequest url])).

(** [random.random()] *)
Definition random_random : M Q :=
  fun e s => (Ok (random_at e (ndraw s)), mkst (nreq s) (S (ndraw s)) (nllm s) (log s)).

(** [random.uniform(a, b)] is [a + (b - a) * random()]. *)
Definition uniform (a b u : Q) : Q := (a + (b - a) * u)%Q.

Definition random_uniform (a b : Q) : M Q :=
  u <- random_random ;; ret (uniform a b u).

Fixpoint mapM {A B} (f : A -> M B) (xs : list A) : M (list B) :=
  match xs with
  | [] => ret []
  | x :: xs' => y <- f x ;; ys <- mapM f xs' ;; ret (y :: ys)
  end.

(** [[f() for _ in range(n)]] *)
Fixpoint repeatM {A} (n : nat) (m : M A) : M (list A) :=
  match n with
  | O => ret []
  | S n' => y <- m ;; ys <- repeatM n' m ;; ret (y :: ys)
  end.

(** *** Python operations on decoded JSON values *)

(** [v[k]] with a string key. *)
Definition getkey (v : json) (k : string) : M json :=
  match v with
  | JObj kvs => match assoc k kvs with Some x => ret x | None => raise KeyError end
  | _ => raise TypeError
  end.

(** [v[i]] with an integer index (negative indices count from the end). *)
Definition getidx (v : json) (i : Z) : M json :=
  let pick {B} (xs : list B) (mk : B -> json) : M json :=
    let n := Z.of_nat (length xs) in
    let j := if Z.ltb i 0 then n + i else i in
    if Z.leb 0 j && Z.ltb j n then
      match nth_error xs (Z.to_nat j) with Some x => ret (mk x) | None => raise IndexError end
    else raise IndexError in
  match v with
  | JArr xs => pick xs (fun x => x)
  | JStr s => pick (list_ascii_of_string s) (fun c => JStr (String c EmptyString))
  | JObj _ => raise KeyError
  | _ => raise TypeError
  end.

(** [for x in v] *)
Definition py_iter (v : json) : M (list json) :=
  match v with
  | JArr xs => ret xs
  | JObj kvs => ret (map (fun kv => JStr (fst kv)) kvs)
  | JStr s => ret (map (fun c => JStr (String c EmptyString)) (list_ascii_of_string s))
  | _ => raise TypeError
  end.

(** The numeric value of a JSON value used in arithmetic ([bool] is an [int]). *)
Definition py_num (v : json) : M Q :=
  match v with
  | JNum q => ret q
  | JBool b => ret (if b then 1%Q else 0%Q)
  | _ => raise TypeError
  end.

(** [a / b] on Python numbers. *)
Definition py_div (a b : Q) : M Q :=
  if Qeq_bool b 0 then raise ZeroDivisionError else ret (a / b)%Q.

(** [v.upper()] *)
Definition py_upper (v : json) : M string :=
  match v with JStr s => ret (str_upper s) | _ => raise AttributeError end.

(** [str(v)] inside an f-string, for the values that reach a URL. *)
Definition py_str (v : json) : string :=
  match v with
  | JStr s => s
  | JNull => "None"
  | JBool true => "True"
  | JBool false => "False"
  | _ => "<json>"
  end.

(** Python equality on hashable keys; [None] for unhashable ones. *)
Definition key_eq (a b : json) : option bool :=
  match a, b with
  | (JArr _ | JObj _), _ | _, (JArr _ | JObj _) => None
  | JNull, JNull => Some true
  | JStr x, JStr y => Some (String.eqb x y)
  | (JNum _ | JBool _), (JNum _ | JBool _) =>
      let n v := match v with JNum q => q | JBool true => 1%Q | _ => 0%Q end in
      Some (Qeq_bool (n a) (n b))
  | _, _ => Some false
  end.

Definition hashable (v : json) : M unit :=
  match v with JArr _ | JObj _ => raise TypeError | _ => ret tt end.

(** A Python dict built by a comprehension: later entries override earlier
    ones, so the list is kept newest first and searched from the head. *)
Fixpoint dict_get (d : list (json * json)) (k : json) (dflt : json) : M json :=
  match d with
  | [] => hashable k ;;; ret dflt
  | (k', v) :: rest =>
      match key_eq k k' with
      | None => raise TypeError
      | Some true => ret v
      | Some false => dict_get rest k dflt
      end
  end.

(** *** The calendar *)

Definition us_per_day : Z := 86400 * 1000000.

(** [timedelta(days=n)] *)
Definition timedelta_days (n : Z) : Z := n * us_per_day.

Definition is_leap (y : Z) : bool :=
  (y mod 4 =? 0) && (negb (y mod 100 =? 0) || (y mod 400 =? 0)).

Definition days_before_year (y : Z) : Z :=
  let y1 := y - 1 in y1 * 365 + y1 / 4 - y1 / 100 + y1 / 400.

Definition days_before_month (y m : Z) : Z :=
  nth (Z.to_nat (m - 1)) [0; 31; 59; 90; 120; 151; 181; 212; 243; 273; 304; 334] 0
  + (if (m >? 2) && is_leap y then 1 else 0).

(** CPython's [_ymd2ord]. *)
Definition ymd2ord (y m d : Z) : Z := days_before_year y + days_before_month y m + d.

(** [datetime(y, m, d)] *)
Definition datetime_ymd (y m d : Z) : Z := (ymd2ord y m d - 1) * us_per_day.

(** [timedelta.days] of a difference of datetimes. *)
Definition td_days (delta : Z) : Z := delta / us_per_day.

End Api.

(* ------------------------------------------------------------------ *)
(** ** [utils.py]: [calculate_date_range] *)

Module Utils.

Import Api.
Local Open Scope string_scope.
Local Open Scope Z_scope.

(** [datetime(2013, 4, 28)], the "All Time" start. *)
Definition all_time_start : Z := datetime_ymd 2013 4 28.

(** [calculate_date_range(timeframe)], with [now] the value of
    [datetime.now()]. *)
Definition calculate_date_range (timeframe : string) (now : Z) : Z * Z :=
  let end_date := now in
  let start_date :=
    if String.eqb timeframe "24h" then end_date - timedelta_days 1
    else if String.eqb timeframe "7d" then end_date - timedelta_days 7
    else if String.eqb timeframe "30d" then end_date - timedelta_days 30
    else if String.eqb timeframe "90d" then end_date - timedelta_days 90
    else if String.eqb timeframe "1y" then end_date - timedelta_days 365
    else all_time_start in
  (start_date, end_date).

End Utils.

(* ------------------------------------------------------------------ *)
(** ** [api_service.py]

    The file as committed is garbled: the tail of [get_market_data]
    (from [if COINGECKO_API_KEY:] to its [except] branch) sits inside the
    body of [make_api_request] after [if headers is None: headers = {}].
    The embedding below follows the evident structure: [make_api_request]
    is lines 23-28 and 101-115, [get_market_data] is lines 312-356
    followed by lines 29-99. *)

Module ApiService.

Import Py Api.
Local Open Scope string_scope.
Local Open Scope Z_scope.

Definition COINGECKO_BASE_URL : string := "https://api.coingecko.com/api/v3".

Definition request_exn (o : http_outcome) : exn :=
  match o with
  | HttpStatus code => RequestException (Some code)
  | _ => RequestException None
  end.

(** [hasattr(e.response, 'status_code') and e.response.status_code == 429] *)
Definition is_rate_limited (x : exn) : bool :=
  match x with
  | RequestException (Some code) => code =? 429
  | _ => false
  end.

(** The loop [for i in range(retries)] of [make_api_request], from
    iteration [i] with [fuel] iterations left. Falling out of the loop
    returns Python's [None]. *)
Fixpoint retry_loop (url : string) (retries : Z) (backoff_factor : Q)
    (i : nat) (fuel : nat) : M json :=
  match fuel with
  | O => ret JNull
  | S fuel' =>
      o <- http_request url ;;
      match o with
      | HttpOk body => ret body
      | _ =>
          let x := request_exn o in
          if Z.of_nat i =? retries - 1 then raise x
          else if is_rate_limited x then
            jitter <- random_uniform 0 1 ;;
            sleep (backoff_factor * inject_Z (2 ^ Z.of_nat i) + jitter)%Q ;;;
            retry_loop url retries backoff_factor (S i) fuel'
          else raise x
      end
  end.

(** [make_api_request(url, params, headers, retries, backoff_factor)].
    Parameters and headers only shape the request, which the world answers. *)
Definition make_api_request (url : string) (params : list (string * Z))
    (headers : option (list (string * string))) (retries : Z) (backoff_factor : Q)
    : M json :=
  let _headers := match headers with None => [] | Some h => h end in
  retry_loop url retries backoff_factor 0 (Z.to_nat retries).

(** The default arguments [retries=3, backoff_factor=0.5]. *)
Definition make_api_request_dflt (url : string) (params : list (string * Z))
    (headers : option (list (string * string))) : M json :=
  make_api_request url params headers 3 (1 # 2).

(** The static table of [_get_token_id]. *)
Definition symbol_to_id : list (string * string) :=
  [("BTC", "bitcoin"); ("ETH", "ethereum"); ("BNB", "binancecoin");
   ("XRP", "ripple"); ("ADA", "cardano"); ("SOL", "solana");
   ("DOT", "polkadot"); ("DOGE", "dogecoin"); ("AVAX", "avalanche-2");
   ("LINK", "chainlink"); ("MATIC", "matic-network"); ("LTC", "litecoin");
   ("UNI", "uniswap"); ("ATOM", "cosmos"); ("ETC", "ethereum-classic");
   ("XLM", "stellar"); ("ALGO", "algorand"); ("FIL", "filecoin");
   ("VET", "vechain"); ("THETA", "theta-token")].

(** [for coin in response: if coin['symbol'].upper() == symbol.upper(): return coin['id']] *)
Fixpoint find_coin (up : string) (coins : list json) : M json :=
  match coins with
  | [] => ret JNull
  | coin :: rest =>
      sym <- getkey coin "symbol" ;;
      su <- py_upper sym ;;
      if String.eqb su up then getkey coin "id" else find_coin up rest
  end.

(** [_get_token_id(symbol)]; Python's [None] is [JNull]. *)
Definition get_token_id (symbol : string) : M json :=
  match assoc (str_upper symbol) symbol_to_id with
  | Some id => ret (JStr id)
  | None =>
      try_except
        (response <- make_api_request_dflt (COINGECKO_BASE_URL ++ "/coins/list") [] (Some []) ;;
         coins <- py_iter response ;;
         find_coin (str_upper symbol) coins)
        (fun x => print_error "Error mapping token symbol to ID" x ;;; ret JNull)
  end.

(** The timeframe branch shared by [get_token_data] and [get_market_data]:
    the start date (the interval string is unused by the code). *)
Definition window_start (timeframe : string) (end_date : Z) : Z :=
  if String.eqb timeframe "24h" then end_date - timedelta_days 1
  else if String.eqb timeframe "7d" then end_date - timedelta_days 7
  else if String.eqb timeframe "30d" then end_date - timedelta_days 30
  else if String.eqb timeframe "90d" then end_date - timedelta_days 90
  else if String.eqb timeframe "1y" then end_date - timedelta_days 365
  else datetime_ymd 2013 4 28.

(** A token series as [get_token_data] returns it: raw JSON values for
    the numbers read from the response. *)
Record token_series := mk_token_series {
  ts_date : list Z; ts_price : list json; ts_market_cap : list json; ts_volume : list json }.

(** A market series as [get_market_data] returns it. *)
Record market_series := mk_market_series {
  ms_date : list Z; ms_market_cap : list json; ms_volume : list json; ms_btc_dominance : list json }.

(** [datetime.fromtimestamp(entry[0] / 1000)] *)
Definition entry_date (entry : json) : M Z :=
  t <- getidx entry 0 ;;
  q <- py_num t ;;
  ts <- py_div q 1000 ;;
  e <- get_env ;;
  match fromtimestamp e ts with Some d => ret d | None => raise OverflowError end.

(** [{entry[0]: entry[1] for entry in xs}], newest entry first. *)
Definition build_dict (xs : list json) : M (list (json * json)) :=
  kvs <- mapM (fun entry => k <- getidx entry 0 ;; v <- getidx entry 1 ;;
                            hashable k ;;; ret (k, v)) xs ;;
  ret (rev kvs).

(** [pd.date_range(end=datetime.now(), periods=30, freq='D')] *)
Definition date_range_end (end_date : Z) (periods : nat) : list Z :=
  map (fun k => end_date - timedelta_days (Z.of_nat periods - 1 - Z.of_nat k)) (seq 0 periods).

(** [base * (1 + random.uniform(lo, hi))] *)
Definition jittered (base lo hi : Q) : M json :=
  u <- random_uniform lo hi ;; ret (JNum (base * (1 + u))%Q).

Definition mock_token_data (token : string) : M token_series :=
  n <- now ;;
  let dates := date_range_end n 30 in
  let price_base := if String.eqb token "BTC" then 100%Q
                    else if String.eqb token "ETH" then 1%Q else (1 # 10)%Q in
  let market_cap_base := if String.eqb token "BTC" then 100000000000%Q
                         else if String.eqb token "ETH" then 50000000000%Q else 1000000000%Q in
  let volume_base := if String.eqb token "BTC" then 5000000000%Q
                     else if String.eqb token "ETH" then 2000000000%Q else 500000000%Q in
  prices <- repeatM 30 (jittered price_base (-(1#20)) (1#20)) ;;
  market_caps <- repeatM 30 (jittered market_cap_base (-(1#20)) (1#20)) ;;
  volumes <- repeatM 30 (jittered volume_base (-(1#10)) (1#10)) ;;
  ret (mk_token_series dates prices market_caps volumes).

(** [get_token_data(token, timeframe)] *)
Definition get_token_data (token timeframe : string) : M token_series :=
  try_except
    (end_date <- now ;;
     let start_date := window_start timeframe end_date in
     e <- get_env ;;
     let from_timestamp := to_timestamp e start_date in
     let to_timestamp := to_timestamp e end_date in
     token_id <- get_token_id token ;;
     if negb (truthy token_id) then raise (ValueError ("Token ID not found for symbol: " ++ token))
     else
     let url := COINGECKO_BASE_URL ++ "/coins/" ++ py_str token_id ++ "/market_chart/range" in
     response <- make_api_request_dflt url
                   [("from", from_timestamp); ("to", to_timestamp)] (Some []) ;;
     prices_v <- getkey response "prices" ;;
     price_entries <- py_iter prices_v ;;
     rows <- mapM (fun pe => d <- entry_date pe ;; p <- getidx pe 1 ;; ret (d, p)) price_entries ;;
     mcs_v <- getkey response "market_caps" ;;
     mc_entries <- py_iter mcs_v ;;
     market_caps <- build_dict mc_entries ;;
     vols_v <- getkey response "total_volumes" ;;
     vol_entries <- py_iter vols_v ;;
     volumes <- build_dict vol_entries ;;
     prices_v' <- getkey response "prices" ;;
     price_entries' <- py_iter prices_v' ;;
     date_mss <- mapM (fun entry => getidx entry 0) price_entries' ;;
     aligned <- mapM (fun date_ms => mc <- dict_get market_caps date_ms (JNum 0) ;;
                                     vol <- dict_get volumes date_ms (JNum 0) ;;
                                     ret (mc, vol)) date_mss ;;
     ret (mk_token_series (map fst rows) (map snd rows) (map fst aligned) (map snd aligned)))
    (fun x => print_error ("Error fetching data for " ++ token) x ;;; mock_token_data token).

Definition mock_market_data : M market_series :=
  n <- now ;;
  let dates := date_range_end n 30 in
  market_cap <- repeatM 30 (jittered 2100000000000%Q (-(1#20)) (1#20)) ;;
  volume <- repeatM 30 (jittered 120000000000%Q (-(1#10)) (1#10)) ;;
  btc_dominance <- repeatM 30 (u <- random_uniform (-5) 5 ;; ret (JNum (45 + u)%Q)) ;;
  ret (mk_market_series dates market_cap volume btc_dominance).

(** Python's [min(a, b)] on numbers. *)
Definition py_min (a b : Q) : Q := if Qle_bool a b then a else b.

(** One iteration of [for i, market_cap in enumerate(market_data['market_cap'])]. *)
Definition estimate_point (dates : list Z) (last_date : Z) (n : nat)
    (latest_volume latest_btc_dominance : json) (volume_factor : Q)
    (i : nat) (market_cap : json) : M (json * json) :=
  volume <- (if Nat.eqb i (n - 1) then ret latest_volume
             else variation <- random_uniform (4 # 5) (6 # 5) ;;
                  mc <- py_num market_cap ;;
                  ret (JNum (mc * volume_factor * variation)%Q)) ;;
  let days_ago := td_days (last_date - nth i dates 0) in
  dominance <- (if days_ago =? 0 then ret latest_btc_dominance
                else let additional_dominance := py_min (inject_Z days_ago * (1 # 100)) 30 in
                     l <- py_num latest_btc_dominance ;;
                     ret (JNum (py_min (l + additional_dominance) 90))) ;;
  ret (volume, dominance).

(** [get_market_data(timeframe)] *)
Definition get_market_data (timeframe : string) : M market_series :=
  try_except
    (end_date <- now ;;
     let start_date := window_start timeframe end_date in
     e <- get_env ;;
     let from_timestamp := to_timestamp e start_date in
     let to_timestamp := to_timestamp e end_date in
     response <- make_api_request_dflt (COINGECKO_BASE_URL ++ "/global/history")
                   [("from", from_timestamp); ("to", to_timestamp)] (Some []) ;;
     chart <- getkey response "market_cap_chart" ;;
     by_date <- getkey chart "market_cap_by_date" ;;
     entries <- py_iter by_date ;;
     rows <- mapM (fun entry => d <- entry_date entry ;; mc <- getidx entry 1 ;; ret (d, mc)) entries ;;
     let dates := map fst rows in
     let market_caps := map snd rows in
     response2 <- make_api_request_dflt (COINGECKO_BASE_URL ++ "/global") [] (Some []) ;;
     data <- getkey response2 "data" ;;
     tv <- getkey data "total_volume" ;;
     latest_volume <- getkey tv "usd" ;;
     mcp <- getkey data "market_cap_percentage" ;;
     latest_btc_dominance <- getkey mcp "btc" ;;
     last_mc <- getidx (JArr market_caps) (-1) ;;
     lv <- py_num latest_volume ;;
     lm <- py_num last_mc ;;
     volume_factor <- py_div lv lm ;;
     let last_date := last dates 0 in
     est <- mapM (fun im => estimate_point dates last_date (length market_caps)
                              latest_volume latest_btc_dominance volume_factor (fst im) (snd im))
                 (combine (seq 0 (length market_caps)) market_caps) ;;
     ret (mk_market_series dates market_caps (map fst est) (map snd est)))
    (fun x => print_error "Error fetching market data" x ;;; mock_market_data).

(** Python's [<] on strings: code points compared left to right. *)
Fixpoint str_ltb (a b : string) : bool :=
  match a, b with
  | EmptyString, EmptyString => false
  | EmptyString, String _ _ => true
  | String _ _, EmptyString => false
  | String c a', String d b' =>
      if (nat_of_ascii c <? nat_of_ascii d)%nat then true
      else if (nat_of_ascii c =? nat_of_ascii d)%nat then str_ltb a' b'
      else false
  end.

Fixpoint insert_sorted (x : string) (xs : list string) : list string :=
  match xs with
  | [] => [x]
  | y :: ys => if str_ltb x y then x :: xs
               else if String.eqb x y then xs
               else y :: insert_sorted x ys
  end.

(** [sorted(list(set(xs)))]: the distinct elements, in increasing order. *)
Definition sorted_set (xs : list string) : list string := fold_right insert_sorted [] xs.

Definition token_list_fallback : list string :=
  ["BTC"; "ETH"; "BNB"; "XRP"; "ADA"; "SOL"; "DOT"; "DOGE"; "AVAX"; "LINK";
   "MATIC"; "LTC"; "UNI"; "ATOM"; "ETC"; "XLM"; "ALGO"; "FIL"; "VET"; "THETA"].

(** [get_token_list()]; the API-key header only shapes the request. *)
Definition get_token_list : M (list string) :=
  try_except
    (let url := COINGECKO_BASE_URL ++ "/coins/list" in
     response <- make_api_request_dflt url [] (Some []) ;;
     coins <- py_iter response ;;
     tokens <- mapM (fun coin => sym <- getkey coin "symbol" ;; py_upper sym) coins ;;
     ret (sorted_set tokens))
    (fun x => print_error "Error fetching token list" x ;;; ret token_list_fallback).

End ApiService.

(* ------------------------------------------------------------------ *)
(** ** Python's [re]: a backtracking matcher for the constructs used *)

Module Regex.

Local Open Scope char_scope.

(** Character classes: [\d], [\D], [\s], [.] and a literal character. *)
Inductive cls :=
| CDigit
| CNonDigit
| CSpace
| CAnyButNewline
| CChar (c : ascii).

Definition is_digit (c : ascii) : bool :=
  let n := nat_of_ascii c in (48 <=? n)%nat && (n <=? 57)%nat.

(** [\s] on a [str] pattern: the characters below 256 for which
    [str.isspace()] holds (\t-\r, \x1c-\x1f, space, \x85 and \xa0). *)
Definition is_space (c : ascii) : bool :=
  let n := nat_of_ascii c in
  ((9 <=? n)%nat && (n <=? 13)%nat) || ((28 <=? n)%nat && (n <=? 32)%nat)
  || (n =? 133)%nat || (n =? 160)%nat.

Definition cls_ok (k : cls) (c : ascii) : bool :=
  match k with
  | CDigit => is_digit c
  | CNonDigit => negb (is_digit c)
  | CSpace => is_space c
  | CAnyButNewline => negb (Ascii.eqb c "010")
  | CChar d => Ascii.eqb c d
  end.

(** Regular expressions; the quantified atoms are single classes, as in
    the patterns of the code. *)
Inductive re :=
| RCls (k : cls)            (* one character of the class *)
| RStr (s : list ascii)     (* a literal *)
| RSeq (r1 r2 : re)
| RAlt (r1 r2 : re)         (* r1|r2, left first *)
| RStar (k : cls)           (* k*, greedy *)
| RStarLazy (k : cls)       (* k*?, lazy *)
| RPlus (k : cls)           (* k+, greedy *)
| ROpt (r : re)             (* r?, greedy *)
| RGroup (n : nat) (r : re).

(** Captured groups, newest first. *)
Definition caps := list (nat * list ascii).

Definition kont := list ascii -> caps -> option caps.

Fixpoint is_prefix (p t : list ascii) : bool :=
  match p, t with
  | [], _ => true
  | c :: p', d :: t' => Ascii.eqb c d && is_prefix p' t'
  | _ :: _, [] => false
  end.

(** Greedy [k*]: consume as much as possible, then give back one
    character at a time. *)
Fixpoint star_m (k : cls) (t : list ascii) (g : caps) (kt : kont) : option caps :=
  match t with
  | c :: t' =>
      if cls_ok k c then
        match star_m k t' g kt with
        | Some r => Some r
        | None => kt t g
        end
      else kt t g
  | [] => kt t g
  end.

(** Lazy [k*?]: try the continuation first, consume one more on failure. *)
Fixpoint lazy_m (k : cls) (t : list ascii) (g : caps) (kt : kont) : option caps :=
  match kt t g with
  | Some r => Some r
  | None =>
      match t with
      | c :: t' => if cls_ok k c then lazy_m k t' g kt else None
      | [] => None
      end
  end.

(** The backtracking matcher in continuation-passing style. *)
Fixpoint m (r : re) (t : list ascii) (g : caps) (kt : kont) {struct r} : option caps :=
  match r with
  | RCls k => match t with
              | c :: t' => if cls_ok k c then kt t' g else None
              | [] => None
              end
  | RStr s => if is_prefix s t then kt (skipn (length s) t) g else None
  | RSeq r1 r2 => m r1 t g (fun t' g' => m r2 t' g' kt)
  | RAlt r1 r2 => match m r1 t g kt with
                  | Some x => Some x
                  | None => m r2 t g kt
                  end
  | RStar k => star_m k t g kt
  | RStarLazy k => lazy_m k t g kt
  | RPlus k => match t with
               | c :: t' => if cls_ok k c then star_m k t' g kt else None
               | [] => None
               end
  | ROpt r1 => match m r1 t g kt with
               | Some x => Some x
               | None => kt t g
               end
  | RGroup n r1 => m r1 t g (fun t' g' => kt t' ((n, firstn (length t - length t') t) :: g'))
  end.

(** A match of [r] at the start of [t]. *)
Definition match_at (r : re) (t : list ascii) : option caps :=
  m r t [] (fun _ g => Some g).

(** [re.search(r, t)]: the first position where a match starts. *)
Fixpoint search (r : re) (t : list ascii) : option caps :=
  match match_at r t with
  | Some g => Some g
  | None => match t with
            | [] => None
            | _ :: t' => search r t'
            end
  end.

Fixpoint group (n : nat) (g : caps) : list ascii :=
  match g with
  | [] => []
  | (k, s) :: g' => if Nat.eqb k n then s else group n g'
  end.

Definition lit (s : String.string) : list ascii := list_ascii_of_string s.

(** [\d+(\.\d+)?] *)
Definition number_re : re :=
  RSeq (RPlus CDigit) (ROpt (RGroup 2 (RSeq (RCls (CChar ".")) (RPlus CDigit)))).

(** [r'(\d+(\.\d+)?)\s*(/|out of)\s*10'] *)
Definition rating_slash_re : re :=
  RSeq (RGroup 1 number_re)
    (RSeq (RStar CSpace)
       (RSeq (RGroup 3 (RAlt (RStr (lit "/")) (RStr (lit "out of"))))
          (RSeq (RStar CSpace) (RStr (lit "10"))))).

(** [r'rating\D*(\d+(\.\d+)?)'] *)
Definition rating_word_re : re :=
  RSeq (RStr (lit "rating")) (RSeq (RStar CNonDigit) (RGroup 1 number_re)).

(** [\d] runs and [float()] of a matched number. *)
Fixpoint read_digits (u : list ascii) : list ascii * list ascii :=
  match u with
  | c :: u' => if is_digit c then let (d, r) := read_digits u' in (c :: d, r) else ([], u)
  | [] => ([], [])
  end.

Fixpoint digits_value (acc : Z) (d : list ascii) : Z :=
  match d with
  | [] => acc
  | c :: d' => digits_value (acc * 10 + (Z.of_nat (nat_of_ascii c) - 48)) d'
  end.

(** The exact value of a string [s] of the form [\d+(\.\d+)?]. *)
Definition decimal_value (s : list ascii) : Q :=
  let (d, r) := read_digits s in
  match r with
  | "." :: f => (inject_Z (digits_value 0 d)
                 + inject_Z (digits_value 0 f) / inject_Z (10 ^ Z.of_nat (length f)))%Q
  | _ => inject_Z (digits_value 0 d)
  end.

(** A Python [float] that [float()] can return for a string of digits: a
    finite double (a rational) or [inf]. *)
Inductive pyfloat :=
| PyFin (q : Q)
| PyInf.

(** [n / d] rounded to an integer, ties to even ([d > 0]). *)
Definition div_round_even (n d : Z) : Z :=
  let m := (n / d)%Z in
  let r := (n mod d)%Z in
  if (2 * r >? d)%Z then (m + 1)%Z
  else if (2 * r =? d)%Z then (if Z.even m then m else (m + 1)%Z)
  else m.

(** [2 ^ k] for [k >= 0], and [1] below. *)
Definition pow2_nonneg (k : Z) : Z := if (k >=? 0)%Z then (2 ^ k)%Z else 1%Z.

(** IEEE 754 binary64 rounding to nearest, ties to even, of a
    non-negative rational, as CPython's correctly rounded [float(str)]:
    the leading bit is [2 ^ e], the last kept bit [2 ^ ex] (53 bits, or
    fewer for subnormals, [ex >= -1074]), and a value that rounds to
    [2 ^ 1024] or beyond is [inf]. *)
Definition binary64_of_Q (q : Q) : pyfloat :=
  let n := Qnum q in
  let d := Z.pos (Qden q) in
  if (n <=? 0)%Z then PyFin 0%Q
  else
    let e0 := (Z.log2 n - Z.log2 d)%Z in
    let e := if (n * pow2_nonneg (- e0) >=? d * pow2_nonneg e0)%Z then e0 else (e0 - 1)%Z in
    let ex := Z.max (e - 52) (-1074) in
    let m := div_round_even (n * pow2_nonneg (- ex)) (d * pow2_nonneg ex) in
    if (m * pow2_nonneg ex >=? 2 ^ 1024)%Z then PyInf
    else if (ex >=? 0)%Z then PyFin (inject_Z (m * 2 ^ ex))
    else PyFin (Qred (m # Z.to_pos (2 ^ (- ex)))).

(** [float(s)] for [s] of the form [\d+(\.\d+)?]. *)
Definition py_float (s : list ascii) : pyfloat := binary64_of_Q (decimal_value s).

(** [x <= y] on floats. *)
Definition pyfloat_le (x y : pyfloat) : bool :=
  match x, y with
  | PyFin a, PyFin b => Qle_bool a b
  | _, PyInf => true
  | PyInf, PyFin _ => false
  end.

End Regex.

(* ------------------------------------------------------------------ *)
(** ** [ai_analyzer.py] *)

Module Analyzer.

Import Py Api Regex.
Local Open Scope string_scope.

(** [extract_rating(analysis_text)] *)
Definition extract_rating (analysis_text : string) : pyfloat :=
  match search rating_slash_re (list_ascii_of_string analysis_text) with
  | Some g => py_float (group 1 g)
  | None =>
      match search rating_word_re (list_ascii_of_string (str_lower analysis_text)) with
      | Some g =>
          let rating := py_float (group 1 g) in
          if pyfloat_le (PyFin 0) rating && pyfloat_le rating (PyFin 10) then rating
          else PyFin 5
      | None => PyFin 5
      end
  end.

(** [re.sub(r'<.*?>', ' ', text)]: scan left to right, replace each
    match and continue after it. *)
Definition tag_re : re :=
  RSeq (RCls (CChar "<")) (RSeq (RStarLazy CAnyButNewline) (RCls (CChar ">"))).

Fixpoint sub_fuel (fuel : nat) (r : re) (repl t : list ascii) : list ascii :=
  match fuel with
  | O => t
  | S fuel' =>
      match t with
      | [] => []
      | c :: t' =>
          match m r t [] (fun rest _ => Some [(0%nat, rest)]) with
          | Some g => if (length (group 0 g) <? length t)%nat
                      then repl ++ sub_fuel fuel' r repl (group 0 g)
                      else c :: sub_fuel fuel' r repl t'
          | None => c :: sub_fuel fuel' r repl t'
          end
      end
  end.

Definition re_sub (r : re) (repl text : string) : string :=
  let t := list_ascii_of_string text in
  string_of_list_ascii (sub_fuel (S (length t)) r (list_ascii_of_string repl) t).

Fixpoint ends_with (suffix s : string) : bool :=
  String.eqb s suffix ||
  match s with EmptyString => false | String _ s' => ends_with suffix s' end.

(** The result dict of [analyze_whitepaper]. *)
Record analysis := mk_analysis {
  security : string; growth : string; risk : string; technology : string;
  summary : string;
  security_rating : pyfloat; growth_rating : pyfloat; risk_rating : pyfloat;
  tech_rating : pyfloat }.

(** [round(x, 1)] as a number of tenths, ties to even. *)
Definition round_tenths (x : Q) : Z :=
  let y := (x * 10)%Q in
  let k := Qfloor y in
  let frac := (y - inject_Z k)%Q in
  if Qle_bool (1 # 2) frac && negb (Qeq_bool frac (1 # 2)) then (k + 1)%Z
  else if Qeq_bool frac (1 # 2) then (if Z.even k then k else (k + 1)%Z)
  else k.

Fixpoint show_nat_fuel (fuel n : nat) (acc : string) : string :=
  match fuel with
  | O => acc
  | S f =>
      let acc' := String (ascii_of_nat (48 + n mod 10)) acc in
      if (n <? 10)%nat then acc' else show_nat_fuel f (n / 10) acc'
  end.

Definition show_nat (n : nat) : string := show_nat_fuel (S n) n "".

(** [str()] of a non-negative float with one decimal. *)
Definition show_tenths (k : Z) : string :=
  show_nat (Z.to_nat (k / 10)) ++ "." ++ show_nat (Z.to_nat (k mod 10)).

(** [round(random.uniform(lo, hi), 1)] *)
Definition random_rating (lo hi : Q) : M Z :=
  u <- random_uniform lo hi ;; ret (round_tenths u).

(** The float [round(x, 1)] returns for [k] tenths. *)
Definition tenths (k : Z) : pyfloat := binary64_of_Q (inject_Z k / 10)%Q.

(** [generate_mock_analysis(project_name)] *)
Definition generate_mock_analysis (project_name : string) : M analysis :=
  sr <- random_rating 5 (17 # 2) ;;
  gr <- random_rating 5 9 ;;
  rr <- random_rating 4 (15 # 2) ;;
  tr <- random_rating (11 # 2) (17 # 2) ;;
  let security_text := "The " ++ project_name ++ " project demonstrates a satisfactory security framework with some noteworthy features in its consensus mechanism. The smart contract architecture implements industry-standard security practices and has undergone external audits. However, there are some potential concerns regarding centralization of validators and certain edge case vulnerabilities that may require further attention. The project shows commitment to security through bug bounty programs and regular security updates. Rating: " ++ show_tenths sr ++ "/10" in
  let growth_text := "Analysis of " ++ project_name ++ "'s growth potential reveals promising market positioning and a clear adoption strategy targeting both retail and institutional users. The project has established strategic partnerships that could accelerate mainstream adoption, though it faces significant competition in its target market segment. The tokenomics model appears designed to support sustainable growth, with mechanisms to incentivize long-term holding. The roadmap presents ambitious but generally achievable objectives. Rating: " ++ show_tenths gr ++ "/10" in
  let risk_text := "The " ++ project_name ++ " project faces several investment risks worth noting. From a regulatory perspective, there's uncertainty regarding compliance in certain jurisdictions, particularly as regulatory frameworks continue to evolve. Market competition is intense, with several established players offering similar solutions. Technical challenges include scaling issues that may impede performance under high load conditions. The tokenomics model, while thoughtful, has some concentration risks. Nevertheless, the team's experience and the project's current adoption trajectory are mitigating factors. Rating: " ++ show_tenths rr ++ "/10" in
  let technology_text := "From a technological standpoint, " ++ project_name ++ " demonstrates notable innovation in several areas. The project introduces a novel approach to scalability through its modified consensus mechanism, potentially offering significant advantages over existing solutions. The interoperability framework is well-designed, though similar to solutions found in other projects. The core technical architecture is sound and demonstrates a good balance between innovation and proven technologies. While not revolutionary, the technology stack represents a meaningful evolution in the space. Rating: " ++ show_tenths tr ++ "/10" in
  let summary_text := "The " ++ project_name ++ " project presents a balanced profile with particular strengths in its growth potential and technological innovation. The security foundation is solid though not exceptional, with room for improvement in decentralization aspects. The project's risk profile is manageable but investors should monitor regulatory developments closely.

Key strengths include a well-articulated adoption strategy, strategic partnerships, and innovative technological approaches to scalability. Areas of concern center around competitive pressures and certain security edge cases that warrant attention.

Overall verdict: " ++ project_name ++ " appears to be a promising project with above-average potential, particularly if the team can execute on its technical roadmap while addressing the identified security concerns. It represents a moderate-risk investment with good upside potential in the medium to long term." in
  ret (mk_analysis security_text growth_text risk_text technology_text summary_text
                   (tenths sr) (tenths gr) (tenths rr) (tenths tr)).

(** One [chain.run(...)] of the LLM, identified by the prompt it fills. *)
Definition llm_chain (prompt : string) : M string :=
  fun e s =>
    let s' := mkst (nreq s) (ndraw s) (S (nllm s)) (log s ++ [EvLLM prompt]) in
    match llm_run e (nllm s) prompt with
    | Some out => (Ok out, s')
    | None => (Exc (LibraryError "langchain"), s')
    end.

(** Downloading and reading the whitepaper, lines 33-54; the text read so far
    is the result, also when a step fails. *)
Definition read_whitepaper (url : string) : M string :=
  fun e s =>
    let s1 := mkst (nreq s) (ndraw s) (nllm s) (log s ++ [EvDownload url]) in
    match download e url with
    | None => (Exc (RequestException None), s1)
    | Some (text, pages) =>
        if ends_with ".pdf" (str_lower url) then
          (Ok (substring 0 15000 (String.concat "" pages)), s1)
        else
          (Ok (substring 0 15000 (re_sub tag_re " " text)), s1)
    end.

(** [analyze_whitepaper(project_name, url)], with the configured
    [OPENAI_API_KEY]. *)
Definition analyze_whitepaper (openai_api_key : string) (project_name : string)
    (url : option string) : M analysis :=
  text0 <- (match url with
            | Some u =>
                if String.eqb u "" then ret ""
                else try_except (read_whitepaper u)
                       (fun x => print_error "Error downloading or processing whitepaper" x ;;; ret "")
            | None => ret ""
            end) ;;
  let whitepaper_text :=
    if String.eqb text0 "" then
      "Analysis requested for the " ++ project_name ++ " cryptocurrency project. "
      ++ "No whitepaper provided, please analyze based on publicly known information."
    else text0 in
  if negb (String.eqb openai_api_key "") then
    try_except
      (security_analysis <- llm_chain ("security:" ++ project_name ++ ":" ++ whitepaper_text) ;;
       growth_analysis <- llm_chain ("growth:" ++ project_name ++ ":" ++ whitepaper_text) ;;
       risk_analysis <- llm_chain ("risk:" ++ project_name ++ ":" ++ whitepaper_text) ;;
       tech_analysis <- llm_chain ("tech:" ++ project_name ++ ":" ++ whitepaper_text) ;;
       let security_rating := extract_rating security_analysis in
       let growth_rating := extract_rating growth_analysis in
       let risk_rating := extract_rating risk_analysis in
       let tech_rating := extract_rating tech_analysis in
       summary <- llm_chain ("summary:" ++ project_name ++ ":" ++ security_analysis ++ growth_analysis
                             ++ risk_analysis ++ tech_analysis) ;;
       ret (mk_analysis security_analysis growth_analysis risk_analysis tech_analysis summary
                        security_rating growth_rating risk_rating tech_rating))
      (fun x => print_error "Error during AI analysis" x ;;; generate_mock_analysis project_name)
  else generate_mock_analysis project_name.

End Analyzer.

(* ------------------------------------------------------------------ *)
(** ** The rest of [utils.py] *)

Module UtilsMore.

Import Py Api Regex Analyzer.
Local Open Scope string_scope.

(** [needle in hay] on strings. *)
Fixpoint str_contains (needle hay : string) : bool :=
  String.prefix needle hay ||
  match hay with
  | EmptyString => false
  | String _ hay' => str_contains needle hay'
  end.

(** [extract_time_period(text)] *)
Definition extract_time_period (text : string) : string :=
  let text := str_lower text in
  if str_contains "24h" text || str_contains "24 hour" text || str_contains "day" text then "24h"
  else if str_contains "7d" text || str_contains "7 day" text || str_contains "week" text then "7d"
  else if str_contains "30d" text || str_contains "30 day" text || str_contains "month" text
  then "30d"
  else if str_contains "90d" text || str_contains "90 day" text || str_contains "3 month" text
          || str_contains "quarter" text then "90d"
  else if str_contains "1y" text || str_contains "year" text || str_contains "12 month" text
          || str_contains "365 day" text then "1y"
  else "All Time".

(** The dict [token_groups] of [get_comparable_tokens], in insertion order. *)
Definition token_groups : list (string * list string) :=
  [("layer1", ["BTC"; "ETH"; "SOL"; "ADA"; "DOT"; "AVAX"]);
   ("defi", ["UNI"; "AAVE"; "COMP"; "MKR"; "SNX"; "SUSHI"]);
   ("exchange", ["BNB"; "CRO"; "FTT"; "KCS"; "OKB"; "HT"]);
   ("meme", ["DOGE"; "SHIB"; "ELON"; "FLOKI"; "SAMO"]);
   ("gaming", ["AXS"; "MANA"; "SAND"; "ENJ"; "ILV"; "GALA"]);
   ("oracle", ["LINK"; "BAND"; "API3"; "TRB"]);
   ("privacy", ["XMR"; "ZEC"; "DASH"; "SCRT"]);
   ("storage", ["FIL"; "STORJ"; "AR"; "SC"])].

(** [t in xs] on a list of strings. *)
Definition mem (t : string) (xs : list string) : bool := existsb (String.eqb t) xs.

(** [for group, tokens in token_groups.items(): if token in tokens: ... break] *)
Fixpoint find_group (token : string) (groups : list (string * list string)) : option string :=
  match groups with
  | [] => None
  | (g, ts) :: rest => if mem token ts then Some g else find_group token rest
  end.

(** [xs[:n]], negative [n] counting from the end. *)
Definition py_slice_to {A} (xs : list A) (n : Z) : list A :=
  if (0 <=? n)%Z then firstn (Z.to_nat n) xs
  else firstn (Z.to_nat (Z.of_nat (length xs) + n)) xs.

(** [get_comparable_tokens(token, top_tokens, count)]; [token_groups[g]]
    raises [KeyError] for a name that is not a key. *)
Definition get_comparable_tokens (token : string) (top_tokens : list string) (count : Z)
    : result (list string) :=
  let others := py_slice_to (filter (fun t => negb (String.eqb t token)) top_tokens) count in
  match find_group token token_groups with
  | Some g =>
      if negb (String.eqb g "") then
        match assoc g token_groups with
        | None => Exc KeyError
        | Some ts =>
            let comparable_tokens :=
              filter (fun t => negb (String.eqb t token) && mem t top_tokens) ts in
            let comparable_tokens :=
              if (Z.of_nat (length comparable_tokens) <? count)%Z then
                let additional_tokens :=
                  filter (fun t => negb (String.eqb t token) && negb (mem t comparable_tokens))
                    top_tokens in
                (comparable_tokens ++
                  py_slice_to additional_tokens (count - Z.of_nat (length comparable_tokens)))%list
              else comparable_tokens in
            Ok (py_slice_to comparable_tokens count)
        end
      else Ok others
  | None => Ok others
  end.

(** The ten characters of the regex class of [sanitize_input]: backslash,
    single quote, double quote, semicolon, backtick, dollar, less-than,
    greater-than, ampersand and bar. *)
Definition sanitize_chars : list ascii :=
  ["\"; "'"; "034"; ";"; "`"; "$"; "<"; ">"; "&"; "|"]%char.

(** The class as an alternation of single characters. *)
Definition sanitize_re : re :=
  fold_right (fun c r => RAlt (RCls (CChar c)) r) (RCls (CChar "|"%char))
    (removelast sanitize_chars).

(** [sanitize_input(text)]; Python's [None] is [None]. *)
Definition sanitize_input (text : option string) : string :=
  match text with
  | None => ""
  | Some t => if String.eqb t "" then "" else re_sub sanitize_re "" t
  end.

(** [pd.DataFrame({'date': dates, 'value': values})] *)
Definition dataframe2 {A B} (dates : list A) (values : list B) : M (list A * list B) :=
  if Nat.eqb (length dates) (length values) then ret (dates, values)
  else raise (ValueError "All arrays must be of the same length").

(** The loop [for i in range(1, days)] of [generate_random_data]: the
    values appended after [last], [k] iterations.  The values are exact
    rationals, not rounded floats; the facts below only use how many
    random draws are made and in which order the values come. *)
Fixpoint random_walk (volatility : Q) (k : nat) (last : Q) : M (list Q) :=
  match k with
  | O => ret []
  | S k' =>
      change <- random_uniform (- volatility) volatility ;;
      let v := (last * (1 + change))%Q in
      rest <- random_walk volatility k' v ;;
      ret (v :: rest)
  end.

(** [generate_random_data(start_date, end_date, base_value, volatility)] *)
Definition generate_random_data (start_date end_date : Z) (base_value volatility : Q)
    : M (list Z * list Q) :=
  let days := (td_days (end_date - start_date) + 1)%Z in
  let dates := map (fun i => (start_date + timedelta_days (Z.of_nat i))%Z) (seq 0 (Z.to_nat days)) in
  rest <- random_walk volatility (Z.to_nat (days - 1)) base_value ;;
  dataframe2 dates (base_value :: rest).

End UtilsMore.

(* ------------------------------------------------------------------ *)
(** ** [ml_predictor.py]

    The three fitting libraries (statsmodels, Keras, Prophet) are outside
    the repository: each is a parameter of the model — a fit that may
    raise — and the code around it is embedded. *)

Module Predictor.

Import Py Api.
Local Open Scope Z_scope.

(** A row of the historical frame: [date] and [price]. *)
Record hist_row := mk_hist_row { h_date : Z; h_price : Q }.

(** [df.sort_values('date')], as a stable insertion sort. *)
Fixpoint insert_by_date (r : hist_row) (rs : list hist_row) : list hist_row :=
  match rs with
  | [] => [r]
  | r' :: rs' => if h_date r' <=? h_date r then r' :: insert_by_date r rs' else r :: rs
  end.

Definition sort_by_date (rs : list hist_row) : list hist_row :=
  fold_right insert_by_date [] rs.

(** The result dict of the three predictors. *)
Record forecast := mk_forecast {
  f_date : list Z; f_predicted : list Q; f_upper : list Q; f_lower : list Q;
  f_accuracy : option Q }.

(** A fitted [ARIMA(prices, order=(5, 1, 0))]. *)
Record arima_results := mk_arima_results {
  ar_forecast : nat -> list Q;                    (* model_fit.forecast(steps) *)
  ar_forecast_variance : option (nat -> list Q);  (* model_fit.forecast_variance; None: no such attribute *)
  ar_predict : nat -> nat -> list Q }.            (* model_fit.predict(start, end) *)

(** [df['date'].iloc[-1]] *)
Definition last_date (df : list hist_row) : result Z :=
  match rev df with r :: _ => Ok (h_date r) | [] => Exc IndexError end.

(** [[last_date + timedelta(days=i+1) for i in range(prediction_days)]] *)
Definition forecast_dates (last : Z) (prediction_days : nat) : list Z :=
  map (fun i => last + timedelta_days (Z.of_nat i + 1)) (seq 0 prediction_days).

(** numpy's elementwise [(a - b) / a] with broadcasting of length-1 arrays. *)
Definition np_rel_err (a b : list Q) : result (list Q) :=
  let f x y := Qabs ((x - y) / x)%Q in
  if Nat.eqb (length a) (length b) then Ok (map (fun xy => f (fst xy) (snd xy)) (combine a b))
  else match a, b with
       | [x], _ => Ok (map (f x) b)
       | _, [y] => Ok (map (fun x => f x y) a)
       | _, _ => Exc (ValueError "operands could not be broadcast together")
       end.

Definition np_mean (xs : list Q) : Q :=
  (fold_right Qplus 0 xs / inject_Z (Z.of_nat (length xs)))%Q.

(** [predict_with_arima(historical_data, prediction_days)] *)
Definition predict_with_arima (arima : list Q -> option arima_results)
    (historical_data : list hist_row) (prediction_days : nat) : result forecast :=
  let df := sort_by_date historical_data in
  let prices := map h_price df in
  match arima prices with
  | None => Exc (LibraryError "statsmodels")
  | Some fit =>
      let fc := ar_forecast fit prediction_days in
      match last_date df with
      | Exc x => Exc x
      | Ok last =>
          let dates := forecast_dates last prediction_days in
          match ar_forecast_variance fit with
          | None => Exc AttributeError
          | Some var =>
              let forecast_std := map qsqrt (var prediction_days) in
              let lower := map (fun fs => (fst fs - (49 # 25) * snd fs)%Q) (combine fc forecast_std) in
              let upper := map (fun fs => (fst fs + (49 # 25) * snd fs)%Q) (combine fc forecast_std) in
              let lower := map (fun l => Qmax l 0) lower in
              let predictions := ar_predict fit 1 (length prices) in
              match np_rel_err (tl prices) predictions with
              | Exc x => Exc x
              | Ok errs =>
                  let mape := (np_mean errs * 100)%Q in
                  Ok (mk_forecast dates fc upper lower (Some (100 - mape)%Q))
              end
          end
      end
  end.

(** [predict_with_lstm]: the Keras network, trained on the min-max
    normalised prices, yields [prediction_days] normalised predictions. *)
Definition predict_with_lstm (lstm : list Q -> nat -> option (list Q))
    (historical_data : list hist_row) (prediction_days : nat) : result forecast :=
  let df := sort_by_date historical_data in
  let prices := map h_price df in
  match prices with
  | [] => Exc (ValueError "min() arg is an empty sequence")
  | p0 :: _ =>
      let min_price := fold_right Qmin p0 prices in
      let max_price := fold_right Qmax p0 prices in
      match lstm prices prediction_days with
      | None => Exc (LibraryError "tensorflow")
      | Some predicted_normalized =>
          let predicted_prices :=
            map (fun p => (p * (max_price - min_price) + min_price)%Q) predicted_normalized in
          match last_date df with
          | Exc x => Exc x
          | Ok last =>
              let dates := forecast_dates last prediction_days in
              let uncertainty := (1 # 10)%Q in
              let upper := map (fun p => (p * (1 + uncertainty))%Q) predicted_prices in
              let lower := map (fun p => (p * (1 - uncertainty))%Q) predicted_prices in
              Ok (mk_forecast dates predicted_prices upper lower None)
          end
      end
  end.

(** A fitted [Prophet] model: [predict] gives [(yhat, yhat_lower, yhat_upper)]
    for a date. *)
Definition prophet_model := Z -> Q * Q * Q.

(** [model.make_future_dataframe(periods)]: the history dates, then the
    [periods] days after the last one. *)
Definition make_future_dataframe (history : list Z) (periods : nat) : list Z :=
  let last := fold_right Z.max (hd 0 history) history in
  history ++ forecast_dates last periods.

(** [predict_with_prophet(historical_data, prediction_days)] *)
Definition predict_with_prophet (prophet : list (Z * Q) -> option prophet_model)
    (historical_data : list hist_row) (prediction_days : nat) : result forecast :=
  let df := sort_by_date historical_data in
  let prophet_df := map (fun r => (h_date r, h_price r)) df in
  match prophet prophet_df with
  | None => Exc (LibraryError "prophet")
  | Some model =>
      let future := make_future_dataframe (map h_date df) prediction_days in
      let fc := map (fun ds => (ds, model ds)) future in
      (* forecast.iloc[-prediction_days:]; iloc[-0:] is the whole frame *)
      let fc := if Nat.eqb prediction_days 0 then fc else skipn (length fc - prediction_days) fc in
      Ok (mk_forecast (map fst fc)
                      (map (fun r => fst (fst (snd r))) fc)
                      (map (fun r => snd (snd r)) fc)
                      (map (fun r => snd (fst (snd r))) fc)
                      None)
  end.

(** [predict_prices(historical_data, model_type, prediction_days)] *)
Definition predict_prices {H F : Type}
    (arima lstm prophet : H -> nat -> result F)
    (historical_data : H) (model_type : string) (prediction_days : nat) : result F :=
  if String.eqb model_type "ARIMA" then arima historical_data prediction_days
  else if String.eqb model_type "LSTM" then lstm historical_data prediction_days
  else if String.eqb model_type "Prophet" then prophet historical_data prediction_days
  else Exc (ValueError ("Unknown model type: " ++ model_type)).

End Predictor.

(* ------------------------------------------------------------------ *)
(** ** [data_processor.py]: [process_historical_data]

    pandas columns of floats hold finite values, infinities and NaN; the
    finite values are rationals and their sums, products and quotients
    are exact (no rounding, overflow or underflow).  Facts stated over
    these columns are therefore only about floats where the operations
    involved are exact in IEEE arithmetic too: a division by an exact
    zero, [0 / 0], and sums and products with NaN. *)

Module Frame.

Import Py.
Local Open Scope Q_scope.

Inductive flt :=
| Fin (q : Q)
| PInf
| NInf
| NaN.

Definition Qlt_bool (x y : Q) : bool := negb (Qle_bool y x).

Definition is_nan (x : flt) : bool := match x with NaN => true | _ => false end.

Definition neg_inf_of (x : flt) : flt :=
  match x with PInf => NInf | NInf => PInf | other => other end.

(** IEEE division as numpy/pandas perform it on float columns (no
    exception; the zero is the +0.0 of parsed data). *)
Definition fdiv (a b : flt) : flt :=
  match a, b with
  | NaN, _ | _, NaN => NaN
  | Fin x, Fin y =>
      if Qeq_bool y 0 then
        (if Qlt_bool 0 x then PInf else if Qlt_bool x 0 then NInf else NaN)
      else Fin (x / y)
  | Fin _, (PInf | NInf) => Fin 0
  | (PInf | NInf), (PInf | NInf) => NaN
  | (PInf | NInf), Fin y => if Qlt_bool y 0 then neg_inf_of a else a
  end.

Definition fadd (a b : flt) : flt :=
  match a, b with
  | NaN, _ | _, NaN => NaN
  | Fin x, Fin y => Fin (x + y)
  | PInf, NInf | NInf, PInf => NaN
  | (PInf | NInf), _ => a
  | _, (PInf | NInf) => b
  end.

Definition fneg (a : flt) : flt :=
  match a with Fin x => Fin (- x) | other => neg_inf_of other end.

Definition fsub (a b : flt) : flt := fadd a (fneg b).

Definition fmul (a b : flt) : flt :=
  match a, b with
  | NaN, _ | _, NaN => NaN
  | Fin x, Fin y => Fin (x * y)
  | Fin x, inf | inf, Fin x =>
      if Qeq_bool x 0 then NaN else if Qlt_bool x 0 then neg_inf_of inf else inf
  | PInf, PInf | NInf, NInf => PInf
  | _, _ => NInf
  end.

Fixpoint zip_with {A B C} (f : A -> B -> C) (xs : list A) (ys : list B) : list C :=
  match xs, ys with
  | x :: xs', y :: ys' => f x y :: zip_with f xs' ys'
  | _, _ => []
  end.

(** [s.shift(1)] *)
Definition shift1 (xs : list flt) : list flt :=
  match xs with [] => [] | _ => NaN :: removelast xs end.

(** [s.pct_change()] on a column without missing values: [s / s.shift(1) - 1]. *)
Definition pct_change (xs : list flt) : list flt :=
  zip_with (fun x p => fsub (fdiv x p) (Fin 1)) xs (shift1 xs).

Definition times100 (xs : list flt) : list flt := map (fun x => fmul x (Fin 100)) xs.

Fixpoint all_fin (xs : list flt) : option (list Q) :=
  match xs with
  | [] => Some []
  | Fin q :: xs' => match all_fin xs' with Some qs => Some (q :: qs) | None => None end
  | _ :: _ => None
  end.

(** The [w] values of the window ending at row [i]. *)
Definition window (w i : nat) (xs : list flt) : list flt :=
  firstn w (skipn (S i - w) xs).

(** [s.rolling(window=w).agg()] with the default [min_periods = w]. *)
Definition rolling (w : nat) (agg : list flt -> flt) (xs : list flt) : list flt :=
  map (fun i => if (S i <? w)%nat then NaN else agg (window w i xs)) (seq 0 (length xs)).

Definition qsum (qs : list Q) : Q := fold_right Qplus 0 qs.

(** Rolling [mean()]: a NaN leaves fewer than [min_periods] values. *)
Definition roll_mean (xs : list flt) : flt :=
  if existsb is_nan xs then NaN
  else fdiv (fold_right fadd (Fin 0) xs) (Fin (inject_Z (Z.of_nat (length xs)))).

(** Rolling [std()] with [ddof = 1]; a non-finite value in the window
    gives NaN. *)
Definition roll_std (xs : list flt) : flt :=
  match all_fin xs with
  | Some qs =>
      let n := inject_Z (Z.of_nat (length qs)) in
      let mean := qsum qs / n in
      Fin (qsqrt (qsum (map (fun q => (q - mean) * (q - mean)) qs) / (n - 1)))
  | None => NaN
  end.

(** [fillna(method='bfill')]: a NaN takes the next valid value below it. *)
Fixpoint bfill (xs : list flt) : list flt :=
  match xs with
  | [] => []
  | x :: rest =>
      let rest' := bfill rest in
      (if is_nan x then hd NaN rest' else x) :: rest'
  end.










End Frame.

(* ------------------------------------------------------------------ *)
(** ** [database.py]: the SQLite store

    The database is the committed content of its tables; a table that does
    not exist is [None].  pandas' [to_sql] runs its insert in a transaction
    of its own that it commits on success and rolls back on an exception
    ([SQLiteDatabase.run_transaction]), so each call is an atomic batch.
    The tail of the file (after [get_trending_topics]) holds the lines
    [# Convert datetime to string] /
    [df_token['date'] = df_token['date'].dt.strftime('%Y-%m-%d %H:%M:%S')]
    that belong at line 126 of [save_data]; they are put back there. *)

Module Database.

Import Py.
Local Open Scope Z_scope.

(** A row of [market_data]: PRIMARY KEY (date). *)
Record mrow := mk_mrow {
  md_date : string; md_market_cap : Q; md_volume : Q; md_btc_dominance : Q }.

(** A row of [token_data]: PRIMARY KEY (token, date). *)
Record trow := mk_trow {
  td_token : string; td_date : string; td_price : Q; td_market_cap : Q; td_volume : Q }.

Record db := mkdb { market_data : option (list mrow); token_data : option (list trow) }.

(** The state: the committed database and the errors printed. *)
Record dst := mkdst { store : db; printed : list (string * exn) }.

Definition DB (A : Type) : Type := dst -> result A * dst.

Definition ret {A} (a : A) : DB A := fun s => (Ok a, s).
Definition raise {A} (x : exn) : DB A := fun s => (Exc x, s).
Definition bind {A B} (m : DB A) (k : A -> DB B) : DB B :=
  fun s => match m s with
           | (Ok a, s') => k a s'
           | (Exc x, s') => (Exc x, s')
           end.
Definition try_except {A} (m : DB A) (h : exn -> DB A) : DB A :=
  fun s => match m s with
           | (Exc x, s') => h x s'
           | r => r
           end.

Notation "x <- m ;; k" := (bind m (fun x => k)) (at level 61, m at next level, right associativity).
Notation "m ;;; k" := (bind m (fun _ => k)) (at level 61, right associativity).

Definition get_db : DB db := fun s => (Ok (store s), s).
Definition put_db (d : db) : DB unit := fun s => (Ok tt, mkdst d (printed s)).
(** [print(f"{context}: {e}")] *)
Definition print_error (context : string) (x : exn) : DB unit :=
  fun s => (Ok tt, mkdst (store s) (printed s ++ [(context, x)])).

Fixpoint mapM {A B} (f : A -> DB B) (xs : list A) : DB (list B) :=
  match xs with
  | [] => ret []
  | x :: xs' => y <- f x ;; ys <- mapM f xs' ;; ret (y :: ys)
  end.

(** [get_db_connection()]: [sqlite3.connect(DB_PATH)] succeeds or raises. *)
Definition get_db_connection (connect_ok : bool) : DB unit :=
  if connect_ok then ret tt else raise OperationalError.

(** [init_database()]: four [CREATE TABLE IF NOT EXISTS]; the two tables
    [analysis_results] and [trending_topics] are not read by the functions
    modelled here. *)
Definition init_database (connect_ok : bool) : DB unit :=
  get_db_connection connect_ok ;;;
  d <- get_db ;;
  put_db (mkdb (match market_data d with Some t => Some t | None => Some [] end)
               (match token_data d with Some t => Some t | None => Some [] end)).

(** *** [strftime('%Y-%m-%d %H:%M:%S')] *)

(** CPython's [_ord2ymd]. *)
Definition ord2ymd (n0 : Z) : Z * Z * Z :=
  let n := n0 - 1 in
  let n400 := n / 146097 in let n := n mod 146097 in
  let n100 := n / 36524 in let n := n mod 36524 in
  let n4 := n / 1461 in let n := n mod 1461 in
  let n1 := n / 365 in let n := n mod 365 in
  let year := n400 * 400 + 1 + n100 * 100 + n4 * 4 + n1 in
  if (n1 =? 4) || (n100 =? 4) then (year - 1, 12, 31)
  else
    let leapyear := (n1 =? 3) && (negb (n4 =? 24) || (n100 =? 3)) in
    let dbm := [-1; 0; 31; 59; 90; 120; 151; 181; 212; 243; 273; 304; 334] in
    let dim := [-1; 31; 28; 31; 30; 31; 30; 31; 31; 30; 31; 30; 31] in
    let month := Z.shiftr (n + 50) 5 in
    let preceding := nth (Z.to_nat month) dbm 0
                     + (if (month >? 2) && leapyear then 1 else 0) in
    if preceding >? n then
      let month := month - 1 in
      let preceding := preceding - (nth (Z.to_nat month) dim 0
                                    + (if (month =? 2) && leapyear then 1 else 0)) in
      (year, month, n - preceding + 1)
    else (year, month, n - preceding + 1).

Definition show_z (k : Z) : string := Analyzer.show_nat (Z.to_nat k).
Definition pad2 (k : Z) : string := if k <? 10 then "0" ++ show_z k else show_z k.

(** A datetime (microseconds since 0001-01-01) as [%Y-%m-%d %H:%M:%S]
    (glibc does not pad [%Y]). *)
Definition strftime (t : Z) : string :=
  let '(y, mo, d) := ord2ymd (t / Api.us_per_day + 1) in
  let secs := (t mod Api.us_per_day) / 1000000 in
  show_z y ++ "-" ++ pad2 mo ++ "-" ++ pad2 d ++ " " ++
  pad2 (secs / 3600) ++ ":" ++ pad2 ((secs / 60) mod 60) ++ ":" ++ pad2 (secs mod 60).

(** [series.dt.strftime(...)]: a column built from empty lists has dtype
    object, and [.dt] raises [AttributeError] on it. *)
Definition dt_strftime (dates : list Z) : DB (list string) :=
  match dates with
  | [] => raise AttributeError
  | _ => ret (map strftime dates)
  end.

(** *** [to_sql(..., if_exists='append')] *)

(** [executemany] of [INSERT INTO]: a row whose key is already in the table
    (or earlier in the batch) raises [IntegrityError]. *)
Fixpoint insert_rows {R} (same_key : R -> R -> bool) (tbl rows : list R) : option (list R) :=
  match rows with
  | [] => Some tbl
  | r :: rs =>
      if existsb (same_key r) tbl then None else insert_rows same_key (tbl ++ [r]) rs
  end.

Definition market_key_eq (a b : mrow) : bool := String.eqb (md_date a) (md_date b).

Definition token_key_eq (a b : trow) : bool :=
  String.eqb (td_token a) (td_token b) && String.eqb (td_date a) (td_date b).

(** The batch is committed when it succeeds and rolled back otherwise.  A
    missing table would be created by pandas; [init_database] has always
    created it before. *)
Definition to_sql_market (rows : list mrow) : DB unit :=
  d <- get_db ;;
  match market_data d with
  | None => put_db (mkdb (Some rows) (token_data d))
  | Some tbl =>
      match insert_rows market_key_eq tbl rows with
      | Some tbl' => put_db (mkdb (Some tbl') (token_data d))
      | None => raise IntegrityError
      end
  end.

Definition to_sql_token (rows : list trow) : DB unit :=
  d <- get_db ;;
  match token_data d with
  | None => put_db (mkdb (market_data d) (Some rows))
  | Some tbl =>
      match insert_rows token_key_eq tbl rows with
      | Some tbl' => put_db (mkdb (market_data d) (Some tbl'))
      | None => raise IntegrityError
      end
  end.

(** *** [save_data] *)

(** A row of the [market_data] argument (a dict of columns with a datetime
    [date] column). *)
Record market_point := mk_market_point {
  mp_date : Z; mp_market_cap : Q; mp_volume : Q; mp_btc_dominance : Q }.

(** A row of one token's frame in the [token_data] argument. *)
Record token_point := mk_token_point {
  tp_date : Z; tp_price : Q; tp_market_cap : Q; tp_volume : Q }.

Fixpoint forM_ {A} (xs : list A) (f : A -> DB unit) : DB unit :=
  match xs with
  | [] => ret tt
  | x :: xs' => f x ;;; forM_ xs' f
  end.

(** One iteration of [for token, data in token_data.items()]. *)
Definition save_token (token : string) (data : list token_point) : DB unit :=
  dates <- dt_strftime (map tp_date data) ;;
  to_sql_token (map (fun '(d, p) => mk_trow token d (tp_price p) (tp_market_cap p) (tp_volume p))
                    (combine dates data)).

(** [save_data(market_data, token_data)]; [token_data] is a dict, given by
    its items in order. *)
Definition save_data (connect_ok : bool) (market : list market_point)
    (tokens : list (string * list token_point)) : DB unit :=
  try_except
    (init_database connect_ok ;;;
     get_db_connection connect_ok ;;;
     dates <- dt_strftime (map mp_date market) ;;
     to_sql_market (map (fun '(d, p) => mk_mrow d (mp_market_cap p) (mp_volume p) (mp_btc_dominance p))
                        (combine dates market)) ;;;
     forM_ tokens (fun '(token, data) => save_token token data) ;;;
     ret tt)
    (fun e => print_error "Error saving data to database" e).

(** *** [get_historical_data] *)

(** [if start_date:]: [None] and the empty string are falsy. *)
Definition given (o : option string) : option string :=
  match o with
  | Some s => if String.eqb s "" then None else Some s
  | None => None
  end.

(** The [WHERE date >= ? AND date <= ?] filter; SQLite compares TEXT with
    the BINARY collation. *)
Definition date_ok (start_date end_date : option string) (date : string) : bool :=
  (match given start_date with Some s => String.leb s date | None => true end) &&
  (match given end_date with Some e => String.leb date e | None => true end).

Fixpoint insert_by {R} (key : R -> string) (r : R) (rs : list R) : list R :=
  match rs with
  | [] => [r]
  | r' :: rs' => if String.leb (key r') (key r) then r' :: insert_by key r rs' else r :: rs
  end.

(** [ORDER BY date] *)
Definition order_by {R} (key : R -> string) (rs : list R) : list R :=
  fold_right (insert_by key) [] rs.

(** [SELECT DISTINCT token FROM token_data], in table order. *)
Fixpoint distinct (xs : list string) : list string :=
  match xs with
  | [] => []
  | x :: xs' => x :: filter (fun y => negb (String.eqb x y)) (distinct xs')
  end.

(** [pd.read_sql_query] on a missing table raises pandas' [DatabaseError]. *)
Definition read_table {R} (t : option (list R)) : DB (list R) :=
  match t with
  | Some rows => ret rows
  | None => raise (LibraryError "pandas.errors.DatabaseError")
  end.

(** [pd.to_datetime(df['date'])], with the parse of one string as an
    oracle; a string it cannot parse raises. *)
Definition to_datetime (parse : string -> option Z) (dates : list string) : DB (list Z) :=
  mapM (fun d => match parse d with
                 | Some t => ret t
                 | None => raise (ValueError ("Unknown datetime string format: " ++ d))
                 end) dates.

(** The two results; [None] stands for [(None, None)]. *)
Definition historical := (list (Z * mrow) * list (string * list (Z * trow)))%type.

Definition get_historical_data_body (connect_ok : bool) (parse : string -> option Z)
    (start_date end_date : option string) : DB historical :=
  get_db_connection connect_ok ;;;
  d <- get_db ;;
  mtbl <- read_table (market_data d) ;;
  let df_market := order_by md_date (filter (fun r => date_ok start_date end_date (md_date r)) mtbl) in
  mdates <- to_datetime parse (map md_date df_market) ;;
  ttbl <- read_table (token_data d) ;;
  let tokens := distinct (map td_token ttbl) in
  token_data <- mapM (fun token =>
      ttbl' <- read_table (token_data d) ;;
      let df_token := order_by td_date
        (filter (fun r => String.eqb (td_token r) token && date_ok start_date end_date (td_date r)) ttbl') in
      tdates <- to_datetime parse (map td_date df_token) ;;
      ret (token, combine tdates df_token)) tokens ;;
  ret (combine mdates df_market, token_data).

(** [get_historical_data(start_date=None, end_date=None)] *)
Definition get_historical_data (connect_ok : bool) (parse : string -> option Z)
    (start_date end_date : option string) : DB (option historical) :=
  try_except
    (h <- get_historical_data_body connect_ok parse start_date end_date ;; ret (Some h))
    (fun e => print_error "Error retrieving historical data" e ;;; ret None).

(** The rows of [token_data] with key [(token, date)]. *)
Definition rows_with_key (token date : string) (tbl : list trow) : list trow :=
  filter (fun r => String.eqb (td_token r) token && String.eqb (td_date r) date) tbl.

End Database.

(* ================================================================== *)
(** * Statements of the documented behaviour

    What the properties below are stated with: predicates on the
    embedded code and the event traces the documentation describes. *)

Module Specs.

Import Py Api.

(** A computation that returns normally from every state. *)
Definition never_raises {A} (m : M A) : Prop :=
  forall e s, exists a s', m e s = (Ok a, s').

(** A failed request whose exception carries HTTP status 429. *)
Definition failed_429 (o : http_outcome) : bool :=
  match o with
  | HttpOk _ => false
  | _ => ApiService.is_rate_limited (ApiService.request_exn o)
  end.

(** The events of [m] rate-limited attempts numbered from [i], with the
    jitter of each drawn from the [d]-th random value on: a request, then a
    sleep of [backoff_factor * 2^attempt + uniform(0, 1)]. *)
Fixpoint retry_events (url : string) (backoff_factor : Q) (e : env) (i d m : nat) : list event :=
  match m with
  | O => []
  | S m' =>
      EvRequest url
      :: EvSleep (backoff_factor * inject_Z (2 ^ Z.of_nat i) + uniform 0 1 (random_at e d))%Q
      :: retry_events url backoff_factor e (S i) (S d) m'
  end.

End Specs.

(** *** The matcher as a list of candidates, and the rating texts *)

Module RatingSpecs.

Import Regex.
Local Open Scope char_scope.

(** The ends of the matches of [k*], longest first (the order in which
    [star_m] tries them). *)
Fixpoint star_alls (k : cls) (t : list ascii) (g : caps) : list (list ascii * caps) :=
  match t with
  | c :: t' => if cls_ok k c then star_alls k t' g ++ [(t, g)] else [(t, g)]
  | [] => [(t, g)]
  end.

(** The ends of the matches of [k*?], shortest first. *)
Fixpoint lazy_alls (k : cls) (t : list ascii) (g : caps) : list (list ascii * caps) :=
  (t, g) :: match t with
            | c :: t' => if cls_ok k c then lazy_alls k t' g else []
            | [] => []
            end.

(** All the ways [r] matches a prefix of [t] (rest of the text, captures),
    in the order the backtracking matcher tries them. *)
Fixpoint alls (r : re) (t : list ascii) (g : caps) {struct r} : list (list ascii * caps) :=
  match r with
  | RCls k => match t with
              | c :: t' => if cls_ok k c then [(t', g)] else []
              | [] => []
              end
  | RStr s => if is_prefix s t then [(skipn (length s) t, g)] else []
  | RSeq r1 r2 => flat_map (fun p => alls r2 (fst p) (snd p)) (alls r1 t g)
  | RAlt r1 r2 => alls r1 t g ++ alls r2 t g
  | RStar k => star_alls k t g
  | RStarLazy k => lazy_alls k t g
  | RPlus k => match t with
               | c :: t' => if cls_ok k c then star_alls k t' g else []
               | [] => []
               end
  | ROpt r1 => alls r1 t g ++ [(t, g)]
  | RGroup n r1 =>
      map (fun p => (fst p, (n, firstn (length t - length (fst p)) t) :: snd p)) (alls r1 t g)
  end.

Fixpoint first_some {A B} (f : A -> option B) (l : list A) : option B :=
  match l with
  | [] => None
  | x :: l' => match f x with Some y => Some y | None => first_some f l' end
  end.

(** The words of a regular expression. *)
Fixpoint lang (r : re) (w : list ascii) : Prop :=
  match r with
  | RCls k => exists c, w = [c] /\ cls_ok k c = true
  | RStr s => w = s
  | RSeq r1 r2 => exists w1 w2, w = w1 ++ w2 /\ lang r1 w1 /\ lang r2 w2
  | RAlt r1 r2 => lang r1 w \/ lang r2 w
  | RStar k => Forall (fun c => cls_ok k c = true) w
  | RStarLazy k => Forall (fun c => cls_ok k c = true) w
  | RPlus k => w <> [] /\ Forall (fun c => cls_ok k c = true) w
  | ROpt r1 => w = [] \/ lang r1 w
  | RGroup _ r1 => lang r1 w
  end.

(** The group numbers of a regular expression. *)
Fixpoint ids (r : re) : list nat :=
  match r with
  | RSeq r1 r2 | RAlt r1 r2 => ids r1 ++ ids r2
  | ROpt r1 => ids r1
  | RGroup n r1 => n :: ids r1
  | _ => []
  end.

(** The text after the longest prefix of characters of class [k]. *)
Fixpoint drop_cls (k : cls) (t : list ascii) : list ascii :=
  match t with
  | c :: t' => if cls_ok k c then drop_cls k t' else t
  | [] => []
  end.

(** [\s*(/|out of)\s*10], the tail of the first rating pattern. *)
Definition slash_tail_re : re :=
  RSeq (RStar CSpace)
    (RSeq (RGroup 3 (RAlt (RStr (lit "/")) (RStr (lit "out of"))))
       (RSeq (RStar CSpace) (RStr (lit "10")))).

(** What the documentation speaks of. *)

(** A run of one or more decimal digits. *)
Definition digit_run (d : list ascii) : Prop :=
  d <> [] /\ Forall (fun c => is_digit c = true) d.

(** A number [X] or [X.Y]. *)
Definition is_number (w : list ascii) : Prop :=
  exists d, digit_run d /\ (w = d \/ exists f, digit_run f /\ w = d ++ "." :: f).

(** [w] is the longest number at the start of [u]. *)
Definition longest_number (u w : list ascii) : Prop :=
  is_number w /\ (exists rest, u = w ++ rest) /\
  forall w' rest', u = w' ++ rest' -> is_number w' -> (length w' <= length w)%nat.

Definition spaces (s : list ascii) : Prop := Forall (fun c => is_space c = true) s.

(** "/10" or "out of 10", with optional whitespace around the separator. *)
Definition out_of_ten (w : list ascii) : Prop :=
  exists s1 sep s2, spaces s1 /\ spaces s2 /\ (sep = lit "/" \/ sep = lit "out of") /\
                    w = s1 ++ sep ++ s2 ++ lit "10".

(** [t] starts with a number [N] followed by "/10" or "out of 10". *)
Definition slash_rating_at (t : list ascii) (N : Q) : Prop :=
  exists w1 w2 rest, t = w1 ++ w2 ++ rest /\ is_number w1 /\ out_of_ten w2 /\
                     N = decimal_value w1.

(** [t] starts with "rating", then non-digits, then the number [X]. *)
Definition word_rating_at (t : list ascii) (X : Q) : Prop :=
  exists nd u w, t = lit "rating" ++ nd ++ u /\ Forall (fun c => is_digit c = false) nd /\
                 longest_number u w /\ X = decimal_value w.

(** A float between 0 and 10 (inclusive); [inf] is not. *)
Definition float_in_0_10 (x : pyfloat) : Prop :=
  match x with
  | PyFin q => (0 <= q <= 10)%Q
  | PyInf => False
  end.

End RatingSpecs.

(* ================================================================== *)
(** * Properties *)

(* ------------------------------------------------------------------ *)
(** ** Date windows *)

Module DateRangeFacts.

Import Api Utils.
Local Open Scope string_scope.
Local Open Scope Z_scope.

(** C7: for the five windows the range ends now and spans exactly 1, 7,
    30, 90 or 365 days; for "All Time" it starts at 2013-04-28 (day 734986
    of the proleptic calendar) and ends now.  [get_token_data] (and
    [get_market_data]) compute the same start date. *)
Theorem calculate_date_range_windows (now : Z) :
  (forall timeframe days,
     In (timeframe, days) [("24h", 1); ("7d", 7); ("30d", 30); ("90d", 90); ("1y", 365)] ->
     snd (calculate_date_range timeframe now) = now /\
     snd (calculate_date_range timeframe now) - fst (calculate_date_range timeframe now)
       = timedelta_days days) /\
  calculate_date_range "All Time" now = (datetime_ymd 2013 4 28, now) /\
  ymd2ord 2013 4 28 = 734986 /\
  (forall timeframe, ApiService.window_start timeframe now = fst (calculate_date_range timeframe now)).
Proof.
  split; [| split; [| split]].
  - intros timeframe days Hin.
    simpl in Hin.
    repeat (destruct Hin as [Hin | Hin]; [injection Hin as <- <-; simpl; split; [reflexivity | ring] |]).
    destruct Hin.
  - reflexivity.
  - reflexivity.
  - intros timeframe. reflexivity.
Qed.

(** Witness: the 7-day window at a concrete instant. *)
Lemma calculate_date_range_windows_witness :
  In ("7d", 7) [("24h", 1); ("7d", 7); ("30d", 30); ("90d", 90); ("1y", 365)] /\
  snd (calculate_date_range "7d" (datetime_ymd 2024 5 1)) = datetime_ymd 2024 5 1 /\
  snd (calculate_date_range "7d" (datetime_ymd 2024 5 1)) - fst (calculate_date_range "7d" (datetime_ymd 2024 5 1))
    = timedelta_days 7.
Proof.
  assert (Hin : In ("7d", 7) [("24h", 1); ("7d", 7); ("30d", 30); ("90d", 90); ("1y", 365)])
    by (simpl; auto).
  split; [exact Hin |].
  exact (proj1 (calculate_date_range_windows (datetime_ymd 2024 5 1)) "7d" 7 Hin).
Defined.

End DateRangeFacts.

(* ------------------------------------------------------------------ *)
(** ** Model dispatch *)

Module DispatchFacts.

Import Py Predictor.
Local Open Scope string_scope.

(** C9: the three names call their backend with the series and horizon
    unchanged; any other name gives [ValueError("Unknown model type: ...")]
    whatever the backends and the series are, so neither is used. *)
Theorem predict_prices_dispatch {H F : Type} (model_type : string) (prediction_days : nat) :
  (forall (arima lstm prophet : H -> nat -> result F) (historical_data : H),
     predict_prices arima lstm prophet historical_data "ARIMA" prediction_days
       = arima historical_data prediction_days /\
     predict_prices arima lstm prophet historical_data "LSTM" prediction_days
       = lstm historical_data prediction_days /\
     predict_prices arima lstm prophet historical_data "Prophet" prediction_days
       = prophet historical_data prediction_days) /\
  (~ In model_type ["ARIMA"; "LSTM"; "Prophet"] ->
   forall (arima lstm prophet : H -> nat -> result F) (historical_data : H),
     predict_prices arima lstm prophet historical_data model_type prediction_days
       = Exc (ValueError ("Unknown model type: " ++ model_type))).
Proof.
  split.
  - intros; repeat split; reflexivity.
  - intros Hnot arima lstm prophet historical_data.
    unfold predict_prices.
    destruct (String.eqb_spec model_type "ARIMA") as [-> | _];
      [exfalso; apply Hnot; simpl; auto |].
    destruct (String.eqb_spec model_type "LSTM") as [-> | _];
      [exfalso; apply Hnot; simpl; auto |].
    destruct (String.eqb_spec model_type "Prophet") as [-> | _];
      [exfalso; apply Hnot; simpl; auto |].
    reflexivity.
Qed.

(** Witness: the name "GARCH" with constant backends. *)
Lemma predict_prices_dispatch_witness :
  ~ In "GARCH" ["ARIMA"; "LSTM"; "Prophet"] /\
  predict_prices (H := nat) (F := unit) (fun _ _ => Ok tt) (fun _ _ => Ok tt) (fun _ _ => Ok tt)
    7%nat "GARCH" 30%nat = Exc (ValueError ("Unknown model type: " ++ "GARCH")).
Proof.
  assert (Hnot : ~ In "GARCH" ["ARIMA"; "LSTM"; "Prophet"])
    by (simpl; intros [Hx | [Hx | [Hx | []]]]; discriminate Hx).
  split; [exact Hnot |].
  exact (proj2 (predict_prices_dispatch (H := nat) (F := unit) "GARCH" 30%nat) Hnot _ _ _ 7%nat).
Defined.

End DispatchFacts.

(* ------------------------------------------------------------------ *)
(** ** Token-id resolution *)

Module TokenIdFacts.

Import Py Api ApiService.
Local Open Scope string_scope.

(** C8: for a symbol whose upper-cased form is in the static table,
    resolving it twice in a row gives its id both times and leaves the
    state untouched: no request is counted or logged. *)
Theorem get_token_id_static_twice (symbol key id : string) (e : env) (s : st) :
  In (key, id) symbol_to_id ->
  str_upper symbol = key ->
  (a <- get_token_id symbol ;; b <- get_token_id symbol ;; ret (a, b)) e s
    = (Ok (JStr id, JStr id), s).
Proof.
  intros Hin Hup.
  assert (Hlook : assoc (str_upper symbol) symbol_to_id = Some id).
  { rewrite Hup. simpl in Hin.
    repeat (destruct Hin as [Hin | Hin]; [injection Hin as <- <-; reflexivity |]).
    destruct Hin. }
  unfold bind, get_token_id. rewrite Hlook. reflexivity.
Qed.

Definition quiet_env : env :=
  mkenv (fun _ _ => HttpNoResponse) (fun _ => 0%Q) 0%Z (fun _ => None) (fun _ => 0%Z)
        (fun _ => None) (fun _ _ => None).

(** Witness: "eth" in lower case. *)
Lemma get_token_id_static_twice_witness :
  In ("ETH", "ethereum") symbol_to_id /\ str_upper "eth" = "ETH" /\
  (a <- get_token_id "eth" ;; b <- get_token_id "eth" ;; ret (a, b)) quiet_env (mkst 0 0 0 [])
    = (Ok (JStr "ethereum", JStr "ethereum"), mkst 0 0 0 []).
Proof.
  assert (Hin : In ("ETH", "ethereum") symbol_to_id) by (simpl; auto 3).
  assert (Hup : str_upper "eth" = "ETH") by reflexivity.
  split; [exact Hin | split; [exact Hup |]].
  exact (get_token_id_static_twice "eth" "ETH" "ethereum" quiet_env (mkst 0 0 0 []) Hin Hup).
Defined.

End TokenIdFacts.

(* ------------------------------------------------------------------ *)
(** ** The fallbacks to synthetic data *)

Module FallbackFacts.

Import Py Api Specs.

Lemma ret_nr {A} (a : A) : never_raises (ret a).
Proof. intros e s. exists a, s. reflexivity. Qed.

Lemma bind_nr {A B} (m : M A) (k : A -> M B) :
  never_raises m -> (forall a, never_raises (k a)) -> never_raises (bind m k).
Proof.
  intros Hm Hk e s. unfold bind.
  destruct (Hm e s) as (a & s1 & ->). apply Hk.
Qed.

Lemma try_except_nr {A} (m : M A) (h : exn -> M A) :
  (forall x, never_raises (h x)) -> never_raises (try_except m h).
Proof.
  intros Hh e s. unfold try_except.
  destruct (m e s) as [[a | x] s1].
  - exists a, s1. reflexivity.
  - apply Hh.
Qed.

Lemma emit_nr ev : never_raises (emit ev).
Proof. intros e s. eexists _, _. reflexivity. Qed.

Lemma now_nr : never_raises now.
Proof. intros e s. eexists _, _. reflexivity. Qed.

Lemma random_random_nr : never_raises random_random.
Proof. intros e s. eexists _, _. reflexivity. Qed.

Lemma random_uniform_nr a b : never_raises (random_uniform a b).
Proof. intros e s. eexists _, _. reflexivity. Qed.

Lemma repeatM_nr {A} n (m : M A) : never_raises m -> never_raises (repeatM n m).
Proof.
  intros Hm. induction n as [| n IH]; simpl.
  - apply ret_nr.
  - apply bind_nr; [exact Hm | intros y].
    apply bind_nr; [exact IH | intros ys]. apply ret_nr.
Qed.

Ltac nr_step :=
  repeat match goal with
    | |- never_raises (bind _ _) => apply bind_nr; [| intro]
    | |- never_raises (try_except _ _) => apply try_except_nr; intro
    | |- never_raises (repeatM _ _) => apply repeatM_nr
    | |- never_raises (if ?b then _ else _) => destruct b
    | |- never_raises (ret _) => apply ret_nr
    | |- never_raises (emit _) => apply emit_nr
    | |- never_raises now => apply now_nr
    | |- never_raises random_random => apply random_random_nr
    | |- never_raises (random_uniform _ _) => apply random_uniform_nr
    end.

Lemma mock_token_data_nr token : never_raises (ApiService.mock_token_data token).
Proof.
  unfold ApiService.mock_token_data, ApiService.jittered. nr_step.
Qed.

Lemma mock_market_data_nr : never_raises ApiService.mock_market_data.
Proof.
  unfold ApiService.mock_market_data, ApiService.jittered. nr_step.
Qed.

Lemma generate_mock_analysis_nr p : never_raises (Analyzer.generate_mock_analysis p).
Proof.
  unfold Analyzer.generate_mock_analysis, Analyzer.random_rating.
  do 4 (apply bind_nr; [apply bind_nr; [apply random_uniform_nr | intro; apply ret_nr] | intro]).
  intros e s. eexists _, _. reflexivity.
Qed.

Ltac nr_mock :=
  repeat (nr_step; try match goal with
    | |- never_raises (ApiService.mock_token_data _) => apply mock_token_data_nr
    | |- never_raises ApiService.mock_market_data => apply mock_market_data_nr
    | |- never_raises (Analyzer.generate_mock_analysis _) => apply generate_mock_analysis_nr
    end).

Lemma get_market_data_nr timeframe : never_raises (ApiService.get_market_data timeframe).
Proof.
  unfold ApiService.get_market_data. apply try_except_nr; intro.
  unfold print_error. nr_mock.
Qed.

Lemma get_token_data_nr token timeframe : never_raises (ApiService.get_token_data token timeframe).
Proof.
  unfold ApiService.get_token_data. apply try_except_nr; intro.
  unfold print_error. nr_mock.
Qed.

Lemma analyze_whitepaper_no_key_nr project_name url :
  never_raises (Analyzer.analyze_whitepaper "" project_name url).
Proof.
  unfold Analyzer.analyze_whitepaper, print_error. apply bind_nr.
  - destruct url as [u |]; [destruct (String.eqb u EmptyString) |]; nr_step.
  - intros text. cbv zeta. change (negb (String.eqb "" "")) with false. nr_mock.
Qed.

(** C2: without credentials, [get_market_data("30d")],
    [get_token_data("BTC", "30d")] and [analyze_whitepaper] return normally
    in every world and from every state, with a series record (dates,
    prices, market caps, volumes) or an analysis record (four texts, a
    summary, four ratings); without a key the analysis is the mock one. *)
Theorem no_credentials_never_raise (e : env) (s : st) (project_name : string)
    (url : option string) :
  (exists v s', ApiService.get_market_data "30d" e s = (Ok v, s')) /\
  (exists v s', ApiService.get_token_data "BTC" "30d" e s = (Ok v, s')) /\
  (exists v s', Analyzer.analyze_whitepaper "" project_name url e s = (Ok v, s')).
Proof.
  split; [apply get_market_data_nr | split; [apply get_token_data_nr |]].
  apply analyze_whitepaper_no_key_nr.
Qed.

End FallbackFacts.

(* ------------------------------------------------------------------ *)
(** ** Retries of [make_api_request] *)

Module RetryFacts.

Import Py Api ApiService Specs.

(** The loop from iteration [i] with [fuel] iterations left: [a] requests
    are made, all but the last answered by a 429, then the last answer is
    returned or raised. *)
Lemma retry_loop_trace (url : string) (n : nat) (b : Q) (e : env) :
  forall fuel i s, (i + fuel = n)%nat -> (1 <= fuel)%nat ->
  exists a, (1 <= a <= fuel)%nat /\
    snd (retry_loop url (Z.of_nat n) b i fuel e s)
      = mkst (nreq s + a) (ndraw s + (a - 1)) (nllm s)
             (log s ++ retry_events url b e i (ndraw s) (a - 1) ++ [EvRequest url]) /\
    (forall k, (k < a - 1)%nat -> failed_429 (http_get e (nreq s + k) url) = true) /\
    (let o := http_get e (nreq s + (a - 1)) url in
     match o with
     | HttpOk body => fst (retry_loop url (Z.of_nat n) b i fuel e s) = Ok body
     | _ => fst (retry_loop url (Z.of_nat n) b i fuel e s) = Exc (request_exn o) /\
            ((i + a = n)%nat \/ failed_429 o = false)
     end).
Proof.
  induction fuel as [| f IH]; intros i s Hn Hf; [lia |].
  (* the answer to this attempt *)
  assert (Hfirst : forall o, http_get e (nreq s) url = o ->
            retry_loop url (Z.of_nat n) b i (S f) e s =
            match o with
            | HttpOk body => (Ok body, mkst (S (nreq s)) (ndraw s) (nllm s) (log s ++ [EvRequest url]))
            | _ =>
                if (Z.of_nat i =? Z.of_nat n - 1)%Z
                then (Exc (request_exn o), mkst (S (nreq s)) (ndraw s) (nllm s) (log s ++ [EvRequest url]))
                else if is_rate_limited (request_exn o)
                then retry_loop url (Z.of_nat n) b (S i) f e
                       (mkst (S (nreq s)) (S (ndraw s)) (nllm s)
                             ((log s ++ [EvRequest url]) ++
                              [EvSleep (b * inject_Z (2 ^ Z.of_nat i) + uniform 0 1 (random_at e (ndraw s)))%Q]))
                else (Exc (request_exn o), mkst (S (nreq s)) (ndraw s) (nllm s) (log s ++ [EvRequest url]))
            end).
  { intros o Ho. cbn [retry_loop]. unfold bind, http_request. rewrite Ho.
    destruct o; try reflexivity;
      (destruct (Z.of_nat i =? Z.of_nat n - 1)%Z; [reflexivity |]);
      (destruct (is_rate_limited _); reflexivity). }
  (* one request and stop *)
  assert (Hone : forall r, retry_loop url (Z.of_nat n) b i (S f) e s
                   = (r, mkst (S (nreq s)) (ndraw s) (nllm s) (log s ++ [EvRequest url])) ->
            snd (retry_loop url (Z.of_nat n) b i (S f) e s)
              = mkst (nreq s + 1) (ndraw s + (1 - 1)) (nllm s)
                     (log s ++ retry_events url b e i (ndraw s) (1 - 1) ++ [EvRequest url])).
  { intros r Hr. rewrite Hr. simpl. f_equal; lia. }
  specialize (Hfirst _ eq_refl).
  destruct (http_get e (nreq s) url) as [body | code | |] eqn:Ho;
    cbv beta iota in Hfirst.
  1: { exists 1%nat. split; [lia |]. split; [exact (Hone _ Hfirst) |]. split; [intros; lia |].
        cbv zeta. replace (nreq s + (1 - 1))%nat with (nreq s) by lia. rewrite Ho, Hfirst. reflexivity. }
  all: destruct (Z.eqb_spec (Z.of_nat i) (Z.of_nat n - 1)) as [Hlast | Hnotlast];
    [ exists 1%nat; split; [lia |]; split; [exact (Hone _ Hfirst) |]; split; [intros; lia |];
      cbv zeta; replace (nreq s + (1 - 1))%nat with (nreq s) by lia; rewrite Ho, Hfirst; split; [reflexivity | left; lia] |].
  all: destruct (is_rate_limited _) eqn:Hrl;
    [| exists 1%nat; split; [lia |]; split; [exact (Hone _ Hfirst) |]; split; [intros; lia |];
       cbv zeta; replace (nreq s + (1 - 1))%nat with (nreq s) by lia; rewrite Ho, Hfirst; split; [reflexivity | right; exact Hrl]].
  all: destruct (IH (S i) (mkst (S (nreq s)) (S (ndraw s)) (nllm s)
                   ((log s ++ [EvRequest url]) ++
                    [EvSleep (b * inject_Z (2 ^ Z.of_nat i) + uniform 0 1 (random_at e (ndraw s)))%Q])))
        as (a & Ha & Hst & Hfail & Hlastr); [lia | lia |].
  all: rewrite Hfirst; simpl in Hst, Hfail, Hlastr.
  all: exists (S a); split; [lia |].
  all: split; [ rewrite Hst; destruct a as [| a']; [lia |];
                simpl; f_equal; [lia | lia | rewrite Nat.sub_0_r; repeat rewrite <- app_assoc; reflexivity] |].
  all: split; [ intros [| k] Hk; [rewrite Nat.add_0_r, Ho; exact Hrl |];
                rewrite <- plus_n_Sm; apply Hfail; lia |].
  all: replace (nreq s + (S a - 1))%nat with (S (nreq s + (a - 1)))%nat by lia.
  all: cbv zeta; destruct (http_get e (S (nreq s + (a - 1))) url); [exact Hlastr | | |];
       destruct Hlastr as [Hr [Hc | Hc]]; (split; [exact Hr |]); solve [left; lia | right; exact Hc].
Qed.

(** C3: with [retries = n >= 1], a call makes [a <= n] requests: every
    request but the last failed with status 429 and was followed by a
    sleep of [backoff_factor * 2^attempt + uniform(0, 1)] (a jitter in
    [0, 1) for [random()] in [0, 1)); the last answer is returned if it
    succeeded and raised otherwise, and a raise after a 429 only happens
    at the [n]-th attempt: any other failure is raised at once. *)
Theorem make_api_request_retries (url : string) (params : list (string * Z))
    (headers : option (list (string * string))) (n : nat) (backoff_factor : Q)
    (e : env) (s : st) :
  (1 <= n)%nat ->
  (forall u, 0 <= u < 1 -> 0 <= uniform 0 1 u < 1)%Q /\
  exists a, (1 <= a <= n)%nat /\
    snd (make_api_request url params headers (Z.of_nat n) backoff_factor e s)
      = mkst (nreq s + a) (ndraw s + (a - 1)) (nllm s)
             (log s ++ retry_events url backoff_factor e 0 (ndraw s) (a - 1) ++ [EvRequest url]) /\
    (forall k, (k < a - 1)%nat -> failed_429 (http_get e (nreq s + k) url) = true) /\
    (let o := http_get e (nreq s + (a - 1)) url in
     match o with
     | HttpOk body => fst (make_api_request url params headers (Z.of_nat n) backoff_factor e s) = Ok body
     | _ => fst (make_api_request url params headers (Z.of_nat n) backoff_factor e s) = Exc (request_exn o) /\
            (a = n \/ failed_429 o = false)
     end).
Proof.
  intros Hn. split.
  - intros u [H0 H1]. unfold uniform.
    split; [rewrite Qplus_0_l, Qmult_1_l | rewrite Qplus_0_l, Qmult_1_l]; assumption.
  - unfold make_api_request. rewrite Nat2Z.id.
    exact (retry_loop_trace url n backoff_factor e n 0 s eq_refl Hn).
Qed.

Definition always_429 : env :=
  mkenv (fun _ _ => HttpStatus 429) (fun _ => 1 # 2) 0%Z (fun _ => None) (fun _ => 0%Z)
        (fun _ => None) (fun _ _ => None).

(** Witness: three attempts all answered 429. *)
Lemma make_api_request_retries_witness :
  (1 <= 3)%nat /\
  fst (make_api_request "u" [] None (Z.of_nat 3) (1 # 2) always_429 (mkst 0 0 0 []))
    = Exc (RequestException (Some 429%Z)) /\
  exists a, (1 <= a <= 3)%nat /\
    snd (make_api_request "u" [] None (Z.of_nat 3) (1 # 2) always_429 (mkst 0 0 0 []))
      = mkst a (a - 1) 0 ([] ++ retry_events "u" (1 # 2) always_429 0 0 (a - 1) ++ [EvRequest "u"]).
Proof.
  assert (Hn : (1 <= 3)%nat) by lia.
  split; [exact Hn | split; [vm_compute; reflexivity |]].
  destruct (proj2 (make_api_request_retries "u" [] None 3 (1 # 2) always_429 (mkst 0 0 0 []) Hn))
    as (a & Ha & Hst & _).
  exists a. split; [exact Ha | exact Hst].
Defined.

End RetryFacts.

(* ------------------------------------------------------------------ *)
(** ** Forecast bounds *)

Module ForecastFacts.

Import Py Api Predictor.
Local Open Scope Z_scope.

Lemma skipn_after {A} (l1 l2 : list A) : skipn (length l1) (l1 ++ l2) = l2.
Proof. induction l1 as [| x l1 IH]; simpl; auto. Qed.

Lemma forecast_dates_length last n : length (forecast_dates last n) = n.
Proof. unfold forecast_dates. rewrite length_map, length_seq. reflexivity. Qed.

(** C5: whatever Prophet fits, the 30-day forecast has the 30 dates
    [last + 1 day, ..., last + 30 days] and its lower bound is Prophet's
    [yhat_lower] at those dates, passed through as it is: nothing clips it
    at 0 (the ARIMA path applies [np.maximum(lower_bound, 0)]; this one
    does not), so a negative [yhat_lower] is returned as a negative
    lower bound. *)
Theorem predict_with_prophet_lower_unclipped
    (prophet : list (Z * Q) -> option prophet_model) (model : prophet_model)
    (historical_data : list hist_row) :
  prophet (map (fun r => (h_date r, h_price r)) (sort_by_date historical_data)) = Some model ->
  let ds := map h_date (sort_by_date historical_data) in
  let dates := forecast_dates (fold_right Z.max (hd 0 ds) ds) 30 in
  predict_with_prophet prophet historical_data 30
    = Ok (mk_forecast dates
                      (map (fun d => fst (fst (model d))) dates)
                      (map (fun d => snd (model d)) dates)
                      (map (fun d => snd (fst (model d))) dates)
                      None).
Proof.
  intros Hfit ds dates.
  unfold predict_with_prophet. rewrite Hfit.
  unfold make_future_dataframe. fold ds.
  cbn [Nat.eqb].
  rewrite length_map, length_app, forecast_dates_length, Nat.add_sub.
  fold dates.
  replace (length ds) with (length (map (fun ds0 => (ds0, model ds0)) ds)) by apply length_map.
  rewrite map_app, skipn_after.
  rewrite !map_map. cbn. reflexivity.
Qed.

(** A fit whose lower band is negative everywhere. *)
Definition falling_fit : prophet_model := fun d => ((1 # 2)%Q, (-(1 # 4))%Q, (3 # 2)%Q).

Definition falling_history : list hist_row :=
  map (fun k => mk_hist_row (timedelta_days (Z.of_nat k)) (inject_Z (10 - Z.of_nat k))) (seq 0 10).

(** Witness: the returned lower bounds are all [-0.25]. *)
Lemma predict_with_prophet_lower_unclipped_witness :
  exists fc, predict_with_prophet (fun _ => Some falling_fit) falling_history 30%nat = Ok fc /\
             f_lower fc = repeat (-(1 # 4))%Q 30 /\ length (f_date fc) = 30%nat.
Proof.
  eexists. split.
  - exact (predict_with_prophet_lower_unclipped (fun _ => Some falling_fit) falling_fit
             falling_history eq_refl).
  - split; vm_compute; reflexivity.
Defined.

End ForecastFacts.

(* ------------------------------------------------------------------ *)
(** ** Writes to [token_data] *)

Module StoreFacts.

Import Py Database.
Local Open Scope string_scope.

(** [m] keeps [P] on its state, whether it returns or raises. *)
Definition preserves {A} (P : dst -> Prop) (m : DB A) : Prop :=
  forall s, P s -> P (snd (m s)).

Lemma ret_pres {A} P (a : A) : preserves P (ret a).
Proof. intros s H. exact H. Qed.

Lemma raise_pres {A} P x : preserves P (raise (A := A) x).
Proof. intros s H. exact H. Qed.

Lemma bind_pres {A B} P (m : DB A) (k : A -> DB B) :
  preserves P m -> (forall a, preserves P (k a)) -> preserves P (bind m k).
Proof.
  intros Hm Hk s Hs. unfold bind.
  specialize (Hm s Hs). destruct (m s) as [[a | x] s1]; [apply Hk |]; exact Hm.
Qed.

Lemma try_except_pres {A} P (m : DB A) (h : exn -> DB A) :
  preserves P m -> (forall x, preserves P (h x)) -> preserves P (try_except m h).
Proof.
  intros Hm Hh s Hs. unfold try_except.
  specialize (Hm s Hs). destruct (m s) as [[a | x] s1]; [exact Hm | apply Hh; exact Hm].
Qed.

Lemma forM_pres {A} P (xs : list A) (f : A -> DB unit) :
  (forall x, preserves P (f x)) -> preserves P (forM_ xs f).
Proof.
  intros Hf. induction xs as [| x xs IH]; simpl.
  - apply ret_pres.
  - apply bind_pres; [apply Hf | intros _; exact IH].
Qed.

(** The row [r] is the only one with key [(token, date)]. *)
Definition sole_row (token date : string) (r : trow) (s : dst) : Prop :=
  exists tbl, token_data (store s) = Some tbl /\ rows_with_key token date tbl = [r].

Lemma rows_with_key_app token date tbl r0 :
  rows_with_key token date (tbl ++ [r0])
    = (rows_with_key token date tbl
       ++ (if String.eqb (td_token r0) token && String.eqb (td_date r0) date then [r0] else []))%list.
Proof.
  unfold rows_with_key. rewrite filter_app. simpl.
  destruct (String.eqb (td_token r0) token && String.eqb (td_date r0) date); reflexivity.
Qed.

(** A batch that goes in adds no row with a key already present. *)
Lemma insert_rows_keeps_sole token date r : forall rows tbl tbl',
  rows_with_key token date tbl = [r] ->
  insert_rows token_key_eq tbl rows = Some tbl' ->
  rows_with_key token date tbl' = [r].
Proof.
  induction rows as [| r0 rows IH]; intros tbl tbl' Hsole Hins; simpl in Hins.
  - injection Hins as <-. exact Hsole.
  - destruct (existsb (token_key_eq r0) tbl) eqn:Hex; [discriminate |].
    apply (IH (tbl ++ [r0])%list); [| exact Hins].
    rewrite rows_with_key_app, Hsole.
    destruct (String.eqb (td_token r0) token && String.eqb (td_date r0) date) eqn:Hk;
      [| apply app_nil_r].
    exfalso.
    assert (Hr : In r (rows_with_key token date tbl)) by (rewrite Hsole; left; reflexivity).
    unfold rows_with_key in Hr. apply filter_In in Hr as [Hin Hrk].
    apply andb_true_iff in Hk as [Hk1 Hk2]. apply andb_true_iff in Hrk as [Hr1 Hr2].
    apply String.eqb_eq in Hk1, Hk2, Hr1, Hr2.
    assert (Hyes : existsb (token_key_eq r0) tbl = true).
    { apply existsb_exists. exists r. split; [exact Hin |].
      unfold token_key_eq. rewrite Hk1, Hk2, Hr1, Hr2, !String.eqb_refl. reflexivity. }
    congruence.
Qed.

Lemma save_token_pres token date r tok data :
  preserves (sole_row token date r) (save_token tok data).
Proof.
  unfold save_token. apply bind_pres.
  - unfold dt_strftime. destruct (map tp_date data); [apply raise_pres | apply ret_pres].
  - intros dates s (tbl & Htd & Hsole). unfold to_sql_token, bind, get_db. simpl.
    rewrite Htd.
    destruct (insert_rows token_key_eq tbl _) as [tbl' |] eqn:Hins; simpl.
    + exists tbl'. split; [reflexivity |]. exact (insert_rows_keeps_sole _ _ _ _ _ _ Hsole Hins).
    + exists tbl. split; [exact Htd | exact Hsole].
Qed.

Lemma get_db_connection_pres P connect_ok : preserves P (get_db_connection connect_ok).
Proof.
  unfold get_db_connection. destruct connect_ok; [apply ret_pres | apply raise_pres].
Qed.

Lemma init_database_pres token date r connect_ok :
  preserves (sole_row token date r) (init_database connect_ok).
Proof.
  intros s (tbl & Htd & Hsole).
  unfold init_database, get_db_connection, bind, get_db, put_db.
  destruct connect_ok; simpl; [rewrite Htd |]; exists tbl; auto.
Qed.

Lemma to_sql_market_pres token date r rows :
  preserves (sole_row token date r) (to_sql_market rows).
Proof.
  intros s (tbl & Htd & Hsole).
  unfold to_sql_market, bind, get_db, put_db, raise.
  destruct (market_data (store s)); simpl;
    [destruct (insert_rows market_key_eq _ rows); simpl |];
    exists tbl; auto.
Qed.

Lemma save_data_pres token date r connect_ok market tokens :
  preserves (sole_row token date r) (save_data connect_ok market tokens).
Proof.
  unfold save_data. apply try_except_pres.
  - apply bind_pres; [apply init_database_pres | intros _].
    apply bind_pres; [apply get_db_connection_pres | intros _].
    apply bind_pres.
    { unfold dt_strftime. destruct (map mp_date market); [apply raise_pres | apply ret_pres]. }
    intros dates. apply bind_pres; [apply to_sql_market_pres | intros _].
    apply bind_pres; [| intros _; apply ret_pres].
    apply forM_pres. intros [tok data]. apply save_token_pres.
  - intros x s Hs. exact Hs.
Qed.

(** C1 (what the code does): once [(token, date)] has a row [r], a later
    [save_data] leaves [r] as the only row with that key: [to_sql] appends,
    a batch with the same key fails on the PRIMARY KEY and is rolled back,
    and the error is printed, so the newer price is dropped, not written
    over [r]. *)
Theorem save_data_keeps_first_row (connect_ok : bool) (market : list market_point)
    (tokens : list (string * list token_point)) (m : option (list mrow)) (tbl : list trow)
    (printed0 : list (string * exn)) (token date : string) (r : trow) :
  rows_with_key token date tbl = [r] ->
  exists tbl', token_data (store (snd (save_data connect_ok market tokens
                                        (mkdst (mkdb m (Some tbl)) printed0)))) = Some tbl' /\
               rows_with_key token date tbl' = [r].
Proof.
  intros Hsole.
  apply (save_data_pres token date r connect_ok market tokens).
  exists tbl. split; [reflexivity | exact Hsole].
Qed.

Definition day1 : Z := Api.datetime_ymd 2024 1 1.
Definition day2 : Z := Api.datetime_ymd 2024 1 2.

(** The store after a first save of BTC at 100 on 2024-01-01. *)
Definition after_first_save : dst :=
  snd (save_data true [mk_market_point day1 1 1 1] [("BTC", [mk_token_point day1 100 1 1])]
                 (mkdst (mkdb None None) [])).

(** Witness: saving 200 for the same key afterwards keeps the row at 100. *)
Lemma save_data_keeps_first_row_witness :
  exists tbl', token_data (store (snd (save_data true [mk_market_point day2 1 1 1]
                                         [("BTC", [mk_token_point day1 200 1 1])]
                                         after_first_save))) = Some tbl' /\
               rows_with_key "BTC" "2024-01-01 00:00:00" tbl'
                 = [mk_trow "BTC" "2024-01-01 00:00:00" 100 1 1].
Proof.
  exact (save_data_keeps_first_row true [mk_market_point day2 1 1 1]
           [("BTC", [mk_token_point day1 200 1 1])]
           (market_data (store after_first_save))
           [mk_trow "BTC" "2024-01-01 00:00:00" 100 1 1]
           (printed after_first_save) "BTC" "2024-01-01 00:00:00"
           (mk_trow "BTC" "2024-01-01 00:00:00" 100 1 1) eq_refl).
Defined.

(** C10: [get_historical_data] returns normally for every pair of
    optional bounds and every database: the loaded data when the body
    succeeds, and [None], i.e. [(None, None)], with the error printed,
    when any step of the body raises. *)
Theorem get_historical_data_never_raises (connect_ok : bool) (parse : string -> option Z)
    (start_date end_date : option string) (s : dst) :
  let '(r, s1) := get_historical_data_body connect_ok parse start_date end_date s in
  match r with
  | Ok h => get_historical_data connect_ok parse start_date end_date s = (Ok (Some h), s1)
  | Exc x => get_historical_data connect_ok parse start_date end_date s
               = (Ok None, mkdst (store s1) (printed s1 ++ [("Error retrieving historical data", x)])%list)
  end.
Proof.
  unfold get_historical_data, try_except, bind, ret, print_error.
  destruct (get_historical_data_body connect_ok parse start_date end_date s) as [[h | x] s1];
    reflexivity.
Qed.

End StoreFacts.

(* ------------------------------------------------------------------ *)
(** ** Derived columns of [process_historical_data] *)

Module FrameFacts.

Import Frame.
Local Open Scope nat_scope.

Definition fin (x : flt) : Prop := exists q, x = Fin q.
Definition posfin (x : flt) : Prop := exists q, x = Fin q /\ (0 < q)%Q.

Lemma fin_not_nan x : fin x -> is_nan x = false.
Proof. intros [q ->]. reflexivity. Qed.

Lemma Qlt_bool_true a b : Qlt_bool a b = true -> (a < b)%Q.
Proof.
  unfold Qlt_bool. intros H. apply negb_true_iff in H.
  apply Qnot_le_lt. intros Hle. apply Qle_bool_iff in Hle. congruence.
Qed.

Lemma Qeq_bool_pos q : (0 < q)%Q -> Qeq_bool q 0 = false.
Proof.
  intros Hq. destruct (Qeq_bool q 0) eqn:He; [| reflexivity].
  apply Qeq_bool_iff in He. rewrite He in Hq. discriminate Hq.
Qed.

Lemma fdiv_fin x y : fin x -> posfin y -> fin (fdiv x y).
Proof.
  intros [a ->] [b [-> Hb]]. simpl. rewrite (Qeq_bool_pos b Hb). eexists; reflexivity.
Qed.

Lemma pct_step_fin x p : fin x -> posfin p -> fin (fsub (fdiv x p) (Fin 1)).
Proof.
  intros Hx Hp. destruct (fdiv_fin x p Hx Hp) as [q ->]. eexists; reflexivity.
Qed.

Lemma Forall_zip_with {A B C} (P : A -> Prop) (R : B -> Prop) (T : C -> Prop) (f : A -> B -> C) :
  (forall x y, P x -> R y -> T (f x y)) ->
  forall xs ys, Forall P xs -> Forall R ys -> Forall T (zip_with f xs ys).
Proof.
  intros Hf xs. induction xs as [| x xs IH]; intros [| y ys] Hx Hy; simpl; auto.
  inversion Hx; inversion Hy; subst. constructor; auto.
Qed.

Lemma length_zip_with {A B C} (f : A -> B -> C) xs ys :
  length (zip_with f xs ys) = Nat.min (length xs) (length ys).
Proof.
  revert ys. induction xs as [| x xs IH]; intros [| y ys]; simpl; auto.
Qed.

Lemma Forall_removelast {A} (P : A -> Prop) l : Forall P l -> Forall P (removelast l).
Proof.
  induction l as [| a l IH]; intros H; [constructor |].
  inversion H; subst. destruct l as [| b l]; [constructor |].
  constructor; [assumption | apply IH; assumption].
Qed.

Lemma Forall_skipn {A} (P : A -> Prop) k l : Forall P l -> Forall P (skipn k l).
Proof.
  revert l. induction k as [| k IH]; intros l H; [exact H |].
  destruct l as [| a l]; [constructor |]. inversion H; subst. apply IH; assumption.
Qed.

Lemma length_removelast {A} (l : list A) : length (removelast l) = length l - 1.
Proof.
  induction l as [| a l IH]; [reflexivity |].
  destruct l as [| b l]; [reflexivity |].
  change (length (a :: removelast (b :: l)) = length (a :: b :: l) - 1)%nat.
  simpl in *. rewrite IH. lia.
Qed.

Lemma length_pct_change xs : length (pct_change xs) = length xs.
Proof.
  destruct xs as [| x xs]; [reflexivity |].
  unfold pct_change. rewrite length_zip_with. unfold shift1.
  cbn [length]. rewrite length_removelast. cbn [length]. lia.
Qed.

Lemma length_rolling w agg xs : length (rolling w agg xs) = length xs.
Proof. unfold rolling. rewrite length_map, length_seq. reflexivity. Qed.

(** After the first row, every return of a positive column is finite. *)
Lemma pct_change_tail_fin xs :
  Forall posfin xs -> Forall fin (skipn 1 (times100 (pct_change xs))).
Proof.
  intros H. destruct xs as [| x xs]; [constructor |].
  unfold times100, pct_change, shift1. cbn [zip_with map skipn].
  apply Forall_map.
  apply (Forall_zip_with fin posfin (fun c => fin (fmul c (Fin 100)))).
  - intros a p Ha Hp. destruct (pct_step_fin a p Ha Hp) as [q ->]. eexists; reflexivity.
  - inversion H; subst. eapply Forall_impl; [| eassumption]. intros a [q [-> _]]. eexists; reflexivity.
  - apply Forall_removelast. exact H.
Qed.

Lemma last_skipn {A} k (l : list A) d : (k < length l)%nat -> last (skipn k l) d = last l d.
Proof.
  revert l. induction k as [| k IH]; intros l Hk; [reflexivity |].
  destruct l as [| a l]; simpl in Hk; [lia |].
  simpl skipn. rewrite IH by lia.
  destruct l as [| b l]; simpl in Hk; [lia | reflexivity].
Qed.

Lemma Forall_last {A} (P : A -> Prop) l d : Forall P l -> l <> [] -> P (last l d).
Proof.
  induction l as [| a l IH]; intros H Hne; [congruence |].
  inversion H; subst. destruct l as [| b l]; [assumption |].
  apply IH; [assumption | discriminate].
Qed.

(** The last row of a rolling window sees the last [w] values. *)
Lemma last_rolling w agg xs :
  (0 < w <= length xs)%nat ->
  last (rolling w agg xs) NaN = agg (skipn (length xs - w) xs).
Proof.
  intros Hw. unfold rolling.
  destruct (length xs) as [| m] eqn:Hn; [lia |].
  rewrite seq_S, map_app. cbn [map]. rewrite last_last. simpl Nat.add.
  destruct (Nat.ltb_spec (S m) w) as [Hlt | _]; [lia |].
  unfold window. rewrite firstn_all2; [reflexivity |].
  rewrite length_skipn, Hn. lia.
Qed.

Lemma fold_fadd_fin xs : Forall fin xs -> fin (fold_right fadd (Fin 0) xs).
Proof.
  induction xs as [| x xs IH]; intros H; simpl; [eexists; reflexivity |].
  inversion H; subst. destruct H2 as [a ->]. destruct (IH H3) as [b ->].
  eexists; reflexivity.
Qed.

Lemma roll_mean_fin xs : Forall fin xs -> xs <> [] -> fin (roll_mean xs).
Proof.
  intros H Hne. unfold roll_mean.
  assert (Hno : existsb is_nan xs = false).
  { apply not_true_iff_false. intros Hex. apply existsb_exists in Hex as [x [Hin Hx]].
    rewrite Forall_forall in H. rewrite (fin_not_nan x (H x Hin)) in Hx. discriminate. }
  rewrite Hno. apply fdiv_fin; [apply fold_fadd_fin; exact H |].
  eexists. split; [reflexivity |].
  destruct xs as [| x xs]; [congruence |].
  unfold Qlt. simpl. lia.
Qed.

Lemma all_fin_some xs : Forall fin xs -> exists qs, all_fin xs = Some qs.
Proof.
  induction xs as [| x xs IH]; intros H; [exists []; reflexivity |].
  inversion H; subst. destruct H2 as [a ->]. destruct (IH H3) as [qs Hqs].
  exists (a :: qs). simpl. rewrite Hqs. reflexivity.
Qed.

Lemma roll_std_fin xs : Forall fin xs -> fin (roll_std xs).
Proof.
  intros H. unfold roll_std. destruct (all_fin_some xs H) as [qs ->]. eexists; reflexivity.
Qed.

(** Back-filling a column whose last value is a number leaves no NaN. *)
Lemma bfill_no_nan xs :
  xs <> [] -> is_nan (last xs NaN) = false ->
  forallb (fun x => negb (is_nan x)) (bfill xs) = true.
Proof.
  induction xs as [| x rest IH]; intros Hne Hlast; [congruence |].
  destruct rest as [| y rest].
  - simpl in *. rewrite Hlast. simpl. rewrite Hlast. reflexivity.
  - change (last (x :: y :: rest) NaN) with (last (y :: rest) NaN) in Hlast.
    specialize (IH ltac:(discriminate) Hlast).
    cbn [bfill]. cbn [bfill] in IH.
    set (rest' := bfill rest) in *.
    set (hd' := if is_nan y then hd NaN rest' else y) in *.
    simpl in IH |- *.
    apply andb_true_iff in IH as [Hhd Htl].
    rewrite Hhd, Htl. destruct (is_nan x) eqn:Hx; simpl.
    + rewrite Hhd. reflexivity.
    + rewrite Hx. reflexivity.
Qed.
















End FrameFacts.

(* ------------------------------------------------------------------ *)
(** ** Rating extraction *)

Module RatingFacts.

Import Py Regex Analyzer RatingSpecs.
Local Open Scope nat_scope.
Local Open Scope char_scope.

Lemma first_some_app {A B} (f : A -> option B) (l1 l2 : list A) :
  first_some f (l1 ++ l2) =
  match first_some f l1 with Some y => Some y | None => first_some f l2 end.
Proof.
  induction l1 as [|x l1 IH]; simpl; [reflexivity|].
  destruct (f x); [reflexivity|exact IH].
Qed.

Lemma first_some_flat_map {A B C} (f : B -> option C) (h : A -> list B) (l : list A) :
  first_some f (flat_map h l) = first_some (fun x => first_some f (h x)) l.
Proof.
  induction l as [|x l IH]; simpl; [reflexivity|].
  rewrite first_some_app, IH. reflexivity.
Qed.

Lemma first_some_map {A B C} (f : B -> option C) (h : A -> B) (l : list A) :
  first_some f (map h l) = first_some (fun x => f (h x)) l.
Proof.
  induction l as [|x l IH]; simpl; [reflexivity|]. rewrite IH. reflexivity.
Qed.

Lemma first_some_ext {A B} (f f' : A -> option B) l :
  (forall x, f x = f' x) -> first_some f l = first_some f' l.
Proof.
  intros E; induction l as [|x l IH]; simpl; [reflexivity|]. rewrite E, IH. reflexivity.
Qed.

Lemma option_eta {B} (o : option B) :
  match o with Some y => Some y | None => None end = o.
Proof. destruct o; reflexivity. Qed.

Lemma star_m_alls k t g kt :
  star_m k t g kt = first_some (fun p => kt (fst p) (snd p)) (star_alls k t g).
Proof.
  induction t as [|c t IH]; simpl.
  - rewrite option_eta. reflexivity.
  - destruct (cls_ok k c); simpl.
    + rewrite first_some_app, <- IH. simpl. rewrite option_eta. reflexivity.
    + rewrite option_eta. reflexivity.
Qed.

Lemma lazy_m_alls k t g kt :
  lazy_m k t g kt = first_some (fun p => kt (fst p) (snd p)) (lazy_alls k t g).
Proof.
  induction t as [|c t IH]; simpl.
  - destruct (kt [] g); reflexivity.
  - destruct (kt (c :: t) g); [reflexivity|].
    destruct (cls_ok k c); [exact IH|reflexivity].
Qed.

(** The continuation-passing matcher tries the candidates of [alls] in order. *)
Lemma m_alls r : forall t g kt,
  m r t g kt = first_some (fun p => kt (fst p) (snd p)) (alls r t g).
Proof.
  induction r as [k|s|r1 IH1 r2 IH2|r1 IH1 r2 IH2|k|k|k|r1 IH1|n r1 IH1];
    intros t g kt; simpl.
  - destruct t as [|c t]; [reflexivity|].
    destruct (cls_ok k c); simpl; [rewrite option_eta|]; reflexivity.
  - destruct (is_prefix s t); simpl; [rewrite option_eta|]; reflexivity.
  - rewrite IH1, first_some_flat_map. apply first_some_ext. intros [t' g']. apply IH2.
  - rewrite IH1, IH2, first_some_app. reflexivity.
  - apply star_m_alls.
  - apply lazy_m_alls.
  - destruct t as [|c t]; [reflexivity|].
    destruct (cls_ok k c); [apply star_m_alls|reflexivity].
  - rewrite IH1, first_some_app. simpl. rewrite option_eta. reflexivity.
  - rewrite IH1, first_some_map. reflexivity.
Qed.

Lemma match_at_alls r t :
  match_at r t = match alls r t [] with [] => None | p :: _ => Some (snd p) end.
Proof.
  unfold match_at. rewrite m_alls. destruct (alls r t []); reflexivity.
Qed.

(** [search] skips the positions where no match starts. *)
Lemma search_skip r k : forall t,
  (forall j, j < k -> match_at r (skipn j t) = None) -> search r t = search r (skipn k t).
Proof.
  induction k as [|k IH]; intros t H; [reflexivity|].
  assert (H0 := H 0 ltac:(lia)). simpl in H0.
  destruct t as [|c t].
  - simpl. reflexivity.
  - simpl. rewrite H0. apply IH. intros j Hj. apply (H (S j)). lia.
Qed.

Lemma search_here r t g : match_at r t = Some g -> search r t = Some g.
Proof. intros H. destruct t; simpl; rewrite H; reflexivity. Qed.

Lemma search_none r : forall t,
  (forall k, match_at r (skipn k t) = None) -> search r t = None.
Proof.
  induction t as [|c t IH]; intros H.
  - assert (H0 := H 0). simpl in H0 |- *. rewrite H0. reflexivity.
  - assert (H0 := H 0). simpl in H0 |- *. rewrite H0. apply IH. intros k. apply (H (S k)).
Qed.

(** Soundness: every candidate consumes a word of the language. *)
Lemma is_prefix_app s t : is_prefix s t = true -> t = s ++ skipn (length s) t.
Proof.
  revert t; induction s as [|c s IH]; intros [|d t] H; simpl in *; try easy.
  apply andb_true_iff in H as [E H]. apply Ascii.eqb_eq in E. subst.
  f_equal. apply IH. exact H.
Qed.

Lemma is_prefix_self s t : is_prefix s (s ++ t) = true.
Proof.
  induction s as [|c s IH]; simpl; [reflexivity|].
  rewrite Ascii.eqb_refl. exact IH.
Qed.

Lemma star_alls_sound k t g t' g' :
  In (t', g') (star_alls k t g) ->
  g' = g /\ exists w, t = w ++ t' /\ Forall (fun c => cls_ok k c = true) w.
Proof.
  revert t'; induction t as [|c t IH]; intros t' Hin; simpl in Hin.
  - destruct Hin as [E|[]]. inversion E; subst. split; [reflexivity|]. exists []; auto.
  - destruct (cls_ok k c) eqn:Ec.
    + apply in_app_or in Hin as [Hin|[E|[]]].
      * destruct (IH _ Hin) as [-> [w [-> Hw]]]. split; [reflexivity|].
        exists (c :: w). split; [reflexivity|]. constructor; assumption.
      * inversion E; subst. split; [reflexivity|]. exists []; auto.
    + destruct Hin as [E|[]]. inversion E; subst. split; [reflexivity|]. exists []; auto.
Qed.

Lemma lazy_alls_sound k t g t' g' :
  In (t', g') (lazy_alls k t g) ->
  g' = g /\ exists w, t = w ++ t' /\ Forall (fun c => cls_ok k c = true) w.
Proof.
  revert t'; induction t as [|c t IH]; intros t' Hin; simpl in Hin.
  - destruct Hin as [E|[]]. inversion E; subst. split; [reflexivity|]. exists []; auto.
  - destruct Hin as [E|Hin].
    + inversion E; subst. split; [reflexivity|]. exists []; auto.
    + destruct (cls_ok k c) eqn:Ec; [|destruct Hin].
      destruct (IH _ Hin) as [-> [w [-> Hw]]]. split; [reflexivity|].
      exists (c :: w). split; [reflexivity|]. constructor; assumption.
Qed.

Lemma alls_sound r : forall t g t' g',
  In (t', g') (alls r t g) -> exists w, t = w ++ t' /\ lang r w.
Proof.
  induction r as [k|s|r1 IH1 r2 IH2|r1 IH1 r2 IH2|k|k|k|r1 IH1|n r1 IH1];
    intros t g t' g' Hin; simpl in Hin |- *.
  - destruct t as [|c t]; [destruct Hin|].
    destruct (cls_ok k c) eqn:Ec; [|destruct Hin].
    destruct Hin as [E|[]]. inversion E; subst. exists [c]. eauto.
  - destruct (is_prefix s t) eqn:Ep; [|destruct Hin].
    destruct Hin as [E|[]]. inversion E; subst. exists s. split; [|reflexivity].
    apply is_prefix_app. exact Ep.
  - apply in_flat_map in Hin as [[t1 g1] [Hin1 Hin2]]. simpl in Hin2.
    destruct (IH1 _ _ _ _ Hin1) as [w1 [-> Hw1]].
    destruct (IH2 _ _ _ _ Hin2) as [w2 [-> Hw2]].
    exists (w1 ++ w2). split; [apply app_assoc|]. exists w1, w2. auto.
  - apply in_app_or in Hin as [Hin|Hin].
    + destruct (IH1 _ _ _ _ Hin) as [w [-> Hw]]. eauto.
    + destruct (IH2 _ _ _ _ Hin) as [w [-> Hw]]. eauto.
  - destruct (star_alls_sound _ _ _ _ _ Hin) as [_ H]. exact H.
  - destruct (lazy_alls_sound _ _ _ _ _ Hin) as [_ H]. exact H.
  - destruct t as [|c t]; [destruct Hin|].
    destruct (cls_ok k c) eqn:Ec; [|destruct Hin].
    destruct (star_alls_sound _ _ _ _ _ Hin) as [_ [w [-> Hw]]].
    exists (c :: w). split; [reflexivity|]. split; [discriminate|]. constructor; assumption.
  - apply in_app_or in Hin as [Hin|[E|[]]].
    + destruct (IH1 _ _ _ _ Hin) as [w [-> Hw]]. eauto.
    + inversion E; subst. exists []. auto.
  - apply in_map_iff in Hin as [[t1 g1] [E Hin]]. simpl in E. inversion E; subst.
    exact (IH1 _ _ _ _ Hin).
Qed.

(** Completeness: every word of the language is among the candidates. *)
Lemma star_alls_last k t g : In (t, g) (star_alls k t g).
Proof.
  destruct t as [|c t]; simpl; [left; reflexivity|].
  destruct (cls_ok k c); [apply in_or_app; right|]; left; reflexivity.
Qed.

Lemma star_alls_complete k w t g :
  Forall (fun c => cls_ok k c = true) w -> In (t, g) (star_alls k (w ++ t) g).
Proof.
  induction 1 as [|c w Hc Hw IH]; simpl; [apply star_alls_last|].
  rewrite Hc. apply in_or_app. left. exact IH.
Qed.

Lemma lazy_alls_complete k w t g :
  Forall (fun c => cls_ok k c = true) w -> In (t, g) (lazy_alls k (w ++ t) g).
Proof.
  induction 1 as [|c w Hc Hw IH]; simpl.
  - destruct t; left; reflexivity.
  - rewrite Hc. right. exact IH.
Qed.

Lemma alls_complete r : forall w t g,
  lang r w -> exists g', In (t, g') (alls r (w ++ t) g).
Proof.
  induction r as [k|s|r1 IH1 r2 IH2|r1 IH1 r2 IH2|k|k|k|r1 IH1|n r1 IH1];
    intros w t g Hw; simpl in Hw |- *.
  - destruct Hw as [c [-> Hc]]. simpl. rewrite Hc. eexists; left; reflexivity.
  - subst. rewrite is_prefix_self. rewrite skipn_app, skipn_all, Nat.sub_diag. simpl.
    eexists; left; reflexivity.
  - destruct Hw as [w1 [w2 [-> [Hw1 Hw2]]]].
    destruct (IH1 w1 (w2 ++ t) g Hw1) as [g1 Hin1].
    destruct (IH2 w2 t g1 Hw2) as [g2 Hin2].
    exists g2. rewrite <- app_assoc. apply in_flat_map. exists (w2 ++ t, g1). auto.
  - destruct Hw as [Hw|Hw].
    + destruct (IH1 w t g Hw) as [g' Hin]. exists g'. apply in_or_app. auto.
    + destruct (IH2 w t g Hw) as [g' Hin]. exists g'. apply in_or_app. auto.
  - exists g. apply star_alls_complete. exact Hw.
  - exists g. apply lazy_alls_complete. exact Hw.
  - destruct Hw as [Hne Hw]. destruct Hw as [|c w Hc Hw]; [congruence|].
    simpl. rewrite Hc. exists g. apply star_alls_complete. exact Hw.
  - destruct Hw as [->|Hw].
    + exists g. apply in_or_app. right. left. reflexivity.
    + destruct (IH1 w t g Hw) as [g' Hin]. exists g'. apply in_or_app. auto.
  - destruct (IH1 w t g Hw) as [g' Hin]. eexists.
    apply in_map_iff. exists (t, g'). split; [reflexivity|exact Hin].
Qed.

(** The captures of a candidate extend the incoming ones with groups of [r]. *)
Lemma alls_caps r : forall t g t' g',
  In (t', g') (alls r t g) ->
  exists new, g' = new ++ g /\ Forall (fun p => In (fst p) (ids r)) new.
Proof.
  induction r as [k|s|r1 IH1 r2 IH2|r1 IH1 r2 IH2|k|k|k|r1 IH1|n r1 IH1];
    intros t g t' g' Hin; simpl in Hin |- *.
  - destruct t as [|c t]; [destruct Hin|].
    destruct (cls_ok k c); [|destruct Hin].
    destruct Hin as [E|[]]. inversion E; subst. exists []. auto.
  - destruct (is_prefix s t); [|destruct Hin].
    destruct Hin as [E|[]]. inversion E; subst. exists []. auto.
  - apply in_flat_map in Hin as [[t1 g1] [Hin1 Hin2]]. simpl in Hin2.
    destruct (IH1 _ _ _ _ Hin1) as [n1 [-> F1]].
    destruct (IH2 _ _ _ _ Hin2) as [n2 [-> F2]].
    exists (n2 ++ n1). split; [apply app_assoc|].
    apply Forall_app. split.
    + eapply Forall_impl; [|exact F2]. intros a Ha. apply in_or_app. auto.
    + eapply Forall_impl; [|exact F1]. intros a Ha. apply in_or_app. auto.
  - apply in_app_or in Hin as [Hin|Hin].
    + destruct (IH1 _ _ _ _ Hin) as [n1 [-> F1]]. exists n1. split; [reflexivity|].
      eapply Forall_impl; [|exact F1]. intros a Ha. apply in_or_app. auto.
    + destruct (IH2 _ _ _ _ Hin) as [n1 [-> F1]]. exists n1. split; [reflexivity|].
      eapply Forall_impl; [|exact F1]. intros a Ha. apply in_or_app. auto.
  - destruct (star_alls_sound _ _ _ _ _ Hin) as [-> _]. exists []. auto.
  - destruct (lazy_alls_sound _ _ _ _ _ Hin) as [-> _]. exists []. auto.
  - destruct t as [|c t]; [destruct Hin|].
    destruct (cls_ok k c); [|destruct Hin].
    destruct (star_alls_sound _ _ _ _ _ Hin) as [-> _]. exists []. auto.
  - apply in_app_or in Hin as [Hin|[E|[]]].
    + exact (IH1 _ _ _ _ Hin).
    + inversion E; subst. exists []. auto.
  - apply in_map_iff in Hin as [[t1 g1] [E Hin]]. simpl in E. inversion E; subst.
    destruct (IH1 _ _ _ _ Hin) as [n1 [-> F1]].
    eexists (_ :: n1). split; [reflexivity|]. constructor; [left; reflexivity|].
    eapply Forall_impl; [|exact F1]. intros a Ha. right. exact Ha.
Qed.

Lemma group_app_other k new g :
  Forall (fun p => fst p <> k) new -> group k (new ++ g) = group k g.
Proof.
  induction 1 as [|[j s] new Hj _ IH]; simpl; [reflexivity|].
  simpl in Hj. destruct (Nat.eqb_spec j k); [contradiction|exact IH].
Qed.

Lemma group_cons_same n s g : group n ((n, s) :: g) = s.
Proof. simpl. rewrite Nat.eqb_refl. reflexivity. Qed.

Lemma firstn_consumed (w t : list ascii) : firstn (length (w ++ t) - length t) (w ++ t) = w.
Proof.
  rewrite length_app, Nat.add_sub. rewrite firstn_app, firstn_all, Nat.sub_diag.
  simpl. apply app_nil_r.
Qed.

(** Maximal runs of characters satisfying [P]. *)
Definition stops (P : ascii -> bool) (x : list ascii) : Prop :=
  match x with [] => True | c :: _ => P c = false end.

Lemma run_unique (P : ascii -> bool) d : forall d' x x',
  Forall (fun c => P c = true) d -> Forall (fun c => P c = true) d' ->
  stops P x -> stops P x' -> d ++ x = d' ++ x' -> d = d' /\ x = x'.
Proof.
  induction d as [|c d IH]; intros [|c' d'] x x' Hd Hd' Sx Sx' E; simpl in E.
  - auto.
  - subst x. inversion Hd'; subst. simpl in Sx. congruence.
  - subst x'. inversion Hd; subst. simpl in Sx'. congruence.
  - inversion E; subst. inversion Hd; inversion Hd'; subst.
    destruct (IH d' x x') as [-> ->]; auto.
Qed.

Lemma run_prefix (P : ascii -> bool) d : forall d' x x',
  Forall (fun c => P c = true) d -> Forall (fun c => P c = true) d' ->
  stops P x -> d' ++ x' = d ++ x -> exists e, d = d' ++ e.
Proof.
  induction d as [|c d IH]; intros [|c' d'] x x' Hd Hd' Sx E; simpl in E.
  - exists []. reflexivity.
  - subst x. inversion Hd'; subst. simpl in Sx. congruence.
  - exists (c :: d). reflexivity.
  - inversion E; subst. inversion Hd; inversion Hd'; subst.
    destruct (IH d' x x') as [e ->]; auto. exists e. reflexivity.
Qed.

Lemma drop_cls_split k t :
  exists d, t = d ++ drop_cls k t /\ Forall (fun c => cls_ok k c = true) d /\
            stops (cls_ok k) (drop_cls k t).
Proof.
  induction t as [|c t IH]; simpl.
  - exists []. simpl. auto.
  - destruct (cls_ok k c) eqn:Ec.
    + destruct IH as [d [E [F S]]]. exists (c :: d). simpl. rewrite <- E. auto.
    + exists []. simpl. auto.
Qed.

Lemma drop_cls_app k d u :
  Forall (fun c => cls_ok k c = true) d -> stops (cls_ok k) u -> drop_cls k (d ++ u) = u.
Proof.
  induction 1 as [|c d Hc _ IH]; intros S; simpl.
  - destruct u as [|c u]; simpl in *; [reflexivity|]. rewrite S. reflexivity.
  - rewrite Hc. apply IH. exact S.
Qed.

Lemma star_alls_head k t g : exists tl, star_alls k t g = (drop_cls k t, g) :: tl.
Proof.
  induction t as [|c t IH]; simpl; [eexists; reflexivity|].
  destruct (cls_ok k c); [|eexists; reflexivity].
  destruct IH as [tl ->]. eexists. reflexivity.
Qed.

(** Only the longest run can be followed by a continuation that needs a
    character outside the class. *)
Lemma flat_map_star_alls {B} k t g (f : list ascii * caps -> list B) :
  (forall c t' g', cls_ok k c = true -> f (c :: t', g') = []) ->
  flat_map f (star_alls k t g) = f (drop_cls k t, g).
Proof.
  intros Hf. induction t as [|c t IH]; simpl.
  - apply app_nil_r.
  - destruct (cls_ok k c) eqn:Ec; simpl.
    + rewrite flat_map_app, IH. simpl. rewrite (Hf c t g Ec). simpl. apply app_nil_r.
    + apply app_nil_r.
Qed.

Lemma hd_error_flat_map {A B} (f : A -> list B) x l y :
  hd_error (f x) = Some y -> hd_error (flat_map f (x :: l)) = Some y.
Proof. simpl. destruct (f x); simpl; easy. Qed.

Lemma is_digit_dot : is_digit "." = false.
Proof. reflexivity. Qed.

Lemma is_space_not_digit c : is_space c = true -> is_digit c = false.
Proof.
  intros H. destruct c as [b0 b1 b2 b3 b4 b5 b6 b7].
  destruct b0, b1, b2, b3, b4, b5, b6, b7; try reflexivity; discriminate H.
Qed.

Lemma is_space_not_dot c : is_space c = true -> c <> ".".
Proof. intros H ->. discriminate H. Qed.

(** [number_re] and [slash_tail_re] denote the words described in the docs. *)
Lemma lang_number w : lang number_re w <-> is_number w.
Proof.
  unfold number_re, is_number, digit_run. simpl. split.
  - intros [d [o [-> [[Hne Hd] Ho]]]]. exists d. split; [split; assumption|].
    destruct Ho as [->|[a [b [-> [[c [-> Hc]] [Hbne Hb]]]]]].
    + left. apply app_nil_r.
    + right. apply Ascii.eqb_eq in Hc. subst c. exists b. auto.
  - intros [d [[Hne Hd] [->|[f [[Hfne Hf] ->]]]]].
    + exists d, []. rewrite app_nil_r. auto.
    + exists d, ("." :: f). split; [reflexivity|]. split; [auto|]. right.
      exists ["."], f. split; [reflexivity|]. split; [|auto].
      exists ".". split; [reflexivity|apply Ascii.eqb_refl].
Qed.

Lemma lang_slash_tail w : lang slash_tail_re w <-> out_of_ten w.
Proof.
  unfold slash_tail_re, out_of_ten, spaces. simpl. split.
  - intros [s1 [x [-> [H1 [sep [y [-> [Hsep [s2 [ten [-> [H2 ->]]]]]]]]]]]].
    exists s1, sep, s2. auto.
  - intros [s1 [sep [s2 [H1 [H2 [Hsep ->]]]]]].
    exists s1, (sep ++ s2 ++ lit "10"). split; [reflexivity|]. split; [exact H1|].
    exists sep, (s2 ++ lit "10"). split; [reflexivity|]. split; [exact Hsep|].
    exists s2, (lit "10"). auto.
Qed.

Lemma rating_slash_re_eq : rating_slash_re = RSeq (RGroup 1 number_re) slash_tail_re.
Proof. reflexivity. Qed.

Lemma out_of_ten_stops w rest : out_of_ten w -> stops is_digit (w ++ rest) /\ exists c x, w ++ rest = c :: x /\ c <> ".".
Proof.
  intros [s1 [sep [s2 [H1 [H2 [Hsep ->]]]]]].
  destruct H1 as [|c s1 Hc _].
  - destruct Hsep as [-> | ->]; simpl; (split; [reflexivity|]);
      (eexists _, _; split; [reflexivity|discriminate]).
  - simpl. split; [apply is_space_not_digit; exact Hc|].
    eexists _, _. split; [reflexivity|]. apply is_space_not_dot. exact Hc.
Qed.

(** A text that cannot continue a number. *)
Definition ends_number (z : list ascii) : Prop :=
  match z with [] => True | c :: _ => is_digit c = false /\ c <> "." end.

Lemma number_split w : is_number w ->
  exists d tl, w = d ++ tl /\ digit_run d /\
    (tl = [] \/ exists f, digit_run f /\ tl = "." :: f).
Proof.
  intros [d [Hd [->|[f [Hf ->]]]]].
  - exists d, []. rewrite app_nil_r. auto.
  - exists d, ("." :: f). eauto 6.
Qed.

Lemma number_tail_stops tl z :
  (tl = [] \/ exists f, digit_run f /\ tl = "." :: f) -> stops is_digit z -> stops is_digit (tl ++ z).
Proof. intros [->|[f [_ ->]]] S; [exact S|reflexivity]. Qed.

Lemma ends_stops z : ends_number z -> stops is_digit z.
Proof. destruct z; simpl; tauto. Qed.

(** A number followed by a character that cannot continue it is determined
    by the text. *)
Lemma number_unique w1 w1' z z' :
  is_number w1 -> is_number w1' -> ends_number z -> ends_number z' ->
  w1 ++ z = w1' ++ z' -> w1 = w1'.
Proof.
  intros N1 N1' Ez Ez' E.
  destruct (number_split _ N1) as [d [tl [-> [[_ Hd] Htl]]]].
  destruct (number_split _ N1') as [d' [tl' [-> [[_ Hd'] Htl']]]].
  rewrite <- !app_assoc in E.
  destruct (run_unique is_digit d d' (tl ++ z) (tl' ++ z')) as [<- E2]; auto;
    try (apply number_tail_stops; auto; apply ends_stops; auto).
  f_equal.
  destruct Htl as [->|[f [[_ Hf] ->]]], Htl' as [->|[f' [[_ Hf'] ->]]]; simpl in E2.
  - reflexivity.
  - subst z. destruct Ez as [_ Ez]. congruence.
  - subst z'. destruct Ez' as [_ Ez']. congruence.
  - inversion E2 as [E3].
    destruct (run_unique is_digit f f' z z') as [-> _]; auto; apply ends_stops; auto.
Qed.

Lemma longest_frac D F u r3 :
  digit_run D -> digit_run F -> stops is_digit r3 -> u = D ++ "." :: F ++ r3 ->
  longest_number u (D ++ "." :: F).
Proof.
  intros [HDne HD] [HFne HF] S3 ->. split; [|split].
  - exists D. split; [split; assumption|]. right. exists F. split; [split|]; auto.
  - exists r3. rewrite <- app_assoc. reflexivity.
  - intros w' rest' E N'.
    destruct (number_split _ N') as [d' [tl' [-> [[_ Hd'] Htl']]]].
    rewrite <- app_assoc in E.
    destruct Htl' as [->|[f' [[_ Hf'] ->]]].
    + simpl in E. symmetry in E.
      destruct (run_prefix is_digit D d' ("." :: F ++ r3) rest' HD Hd' eq_refl E) as [e ->].
      rewrite !length_app. simpl. lia.
    + symmetry in E.
      destruct (run_unique is_digit D d' ("." :: F ++ r3) (("." :: f') ++ rest')
                  HD Hd' eq_refl eq_refl (eq_sym E)) as [<- E2].
      inversion E2 as [E3]. symmetry in E3.
      destruct (run_prefix is_digit F f' r3 rest' HF Hf' S3 E3) as [e ->].
      rewrite !length_app. simpl. rewrite !length_app. lia.
Qed.

Lemma longest_int D u r1 :
  digit_run D -> stops is_digit r1 -> u = D ++ r1 ->
  (forall F r3, digit_run F -> r1 <> "." :: F ++ r3) ->
  longest_number u D.
Proof.
  intros [HDne HD] S1 -> NF. split; [|split].
  - exists D. split; [split; assumption|]. left. reflexivity.
  - exists r1. reflexivity.
  - intros w' rest' E N'.
    destruct (number_split _ N') as [d' [tl' [-> [[_ Hd'] Htl']]]].
    rewrite <- app_assoc in E.
    destruct Htl' as [->|[f' [Hf' ->]]].
    + simpl in E. symmetry in E.
      destruct (run_prefix is_digit D d' r1 rest' HD Hd' S1 E) as [e ->].
      rewrite !length_app. simpl. lia.
    + destruct (run_unique is_digit D d' r1 (("." :: f') ++ rest')
                  HD Hd' S1 eq_refl E) as [<- E2].
      exfalso. apply (NF f' rest' Hf'). exact E2.
Qed.

Lemma longest_unique u w w' : longest_number u w -> longest_number u w' -> w = w'.
Proof.
  intros [N [[r E] L]] [N' [[r' E'] L']].
  assert (length w = length w') as Hl.
  { apply Nat.le_antisymm; [apply (L' w r)|apply (L w' r')]; assumption. }
  rewrite E in E'.
  assert (H := f_equal (firstn (length w)) E').
  rewrite (firstn_app (length w) w r), Nat.sub_diag, firstn_all in H.
  rewrite Hl, (firstn_app (length w') w' r'), Nat.sub_diag, firstn_all in H.
  simpl in H. rewrite !app_nil_r in H. exact H.
Qed.

(** The first candidate of [number_re] reads the longest number. *)
Lemma number_head c u' g : is_digit c = true ->
  exists w rest g', hd_error (alls number_re (c :: u') g) = Some (rest, g') /\
    c :: u' = w ++ rest /\ longest_number (c :: u') w.
Proof.
  intros Hc. unfold number_re. cbn [alls cls_ok]. rewrite Hc.
  destruct (star_alls_head CDigit u' g) as [tl ->].
  destruct (drop_cls_split CDigit u') as [d1 [Eu [F1 S1]]].
  revert Eu S1. generalize (drop_cls CDigit u') as r1. intros r1 Eu S1.
  assert (HD : digit_run (c :: d1)) by (split; [discriminate|constructor; assumption]).
  cbn [flat_map fst snd].
  destruct r1 as [|c0 r1'].
  - exists (c :: d1), [], g. simpl. split; [reflexivity|]. split; [rewrite Eu; simpl; rewrite ?app_nil_r; reflexivity|].
    apply (longest_int _ _ [] HD I); [rewrite Eu; simpl; rewrite ?app_nil_r; reflexivity|].
    intros F r3 _; discriminate.
  - destruct (Ascii.eqb_spec c0 ".") as [->|Hne].
    + destruct r1' as [|c2 r2].
      * exists (c :: d1), ["."], g. simpl. split; [reflexivity|]. split; [rewrite Eu; reflexivity|].
        apply (longest_int _ _ ["."] HD S1); [rewrite Eu; reflexivity|].
        intros F r3 [HF _] E. inversion E as [E']. destruct F; [congruence|discriminate].
      * cbn [Ascii.eqb ascii_dec]. simpl. destruct (is_digit c2) eqn:E2.
        -- destruct (star_alls_head CDigit r2 g) as [tl2 ->].
           destruct (drop_cls_split CDigit r2) as [d2 [Er2 [F2 S2]]].
           eexists ((c :: d1) ++ "." :: (c2 :: d2)), (drop_cls CDigit r2), _.
           simpl. split; [reflexivity|].
           assert (Eall : c :: u' = (c :: d1) ++ "." :: (c2 :: d2) ++ drop_cls CDigit r2).
           { rewrite Eu. simpl. rewrite Er2 at 1. reflexivity. }
           split; [rewrite Eall, <- app_assoc; reflexivity|].
           apply (longest_frac _ _ _ (drop_cls CDigit r2) HD); [|exact S2|exact Eall].
           split; [discriminate|constructor; assumption].
        -- exists (c :: d1), ("." :: c2 :: r2), g. simpl. split; [reflexivity|].
           split; [rewrite Eu; reflexivity|].
           apply (longest_int _ _ _ HD S1); [rewrite Eu; reflexivity|].
           intros F r3 [HF HFd] E. inversion E as [E'].
           destruct F as [|f F]; [congruence|]. inversion HFd; simpl in E'; congruence.
    + exists (c :: d1), (c0 :: r1'), g. simpl.
      destruct (Ascii.eqb_spec c0 "."); [contradiction|]. simpl.
      split; [reflexivity|]. split; [rewrite Eu; reflexivity|].
      apply (longest_int _ _ _ HD S1); [rewrite Eu; reflexivity|].
      intros F r3 _ E. inversion E. contradiction.
Qed.

Lemma out_of_ten_ends w rest : out_of_ten w -> ends_number (w ++ rest).
Proof.
  intros O. destruct (out_of_ten_stops w rest O) as [S [c [x [E Hc]]]].
  rewrite E in S |- *. simpl in *. auto.
Qed.

Lemma longest_head u w : longest_number u w -> exists c u', u = c :: u' /\ is_digit c = true.
Proof.
  intros [N [[r ->] _]]. destruct (number_split _ N) as [d [tl [-> [[Hne Hd] _]]]].
  destruct Hd as [|c d Hc _]; [congruence|]. exists c, ((d ++ tl) ++ r). auto.
Qed.

(** The first pattern: a match at the start of [t] gives the number read
    there, and there is one exactly when [t] starts with a rating "N/10". *)
Lemma slash_match_sound t g :
  match_at rating_slash_re t = Some g -> slash_rating_at t (decimal_value (group 1 g)).
Proof.
  intros H. rewrite match_at_alls in H.
  destruct (alls rating_slash_re t []) as [|[t' g'] l] eqn:E; [discriminate|].
  inversion H; subst g'.
  assert (Hin : In (t', g) (alls rating_slash_re t [])) by (rewrite E; left; reflexivity).
  rewrite rating_slash_re_eq in Hin. cbn [alls] in Hin.
  apply in_flat_map in Hin as [[t1 g1] [H1 H2]]. cbn [fst snd] in H2.
  apply in_map_iff in H1 as [[t0 g0] [Eq Hin0]]. simpl in Eq. inversion Eq; subst t1 g1.
  destruct (alls_sound _ _ _ _ _ Hin0) as [w1 [-> Hw1]].
  destruct (alls_sound _ _ _ _ _ H2) as [w2 [-> Hw2]].
  destruct (alls_caps _ _ _ _ _ H2) as [new [-> Fnew]].
  rewrite group_app_other.
  - simpl. rewrite firstn_consumed. exists w1, w2, t'.
    split; [reflexivity|]. split; [apply lang_number; exact Hw1|].
    split; [apply lang_slash_tail; exact Hw2|reflexivity].
  - eapply Forall_impl; [|exact Fnew]. simpl. intros a [<-|[]]. discriminate.
Qed.

Lemma slash_match_complete t N :
  slash_rating_at t N -> exists g, match_at rating_slash_re t = Some g.
Proof.
  intros [w1 [w2 [rest [-> [N1 [O2 _]]]]]].
  assert (L : lang rating_slash_re (w1 ++ w2)).
  { rewrite rating_slash_re_eq. exists w1, w2. split; [reflexivity|]. split.
    - apply lang_number. exact N1.
    - apply lang_slash_tail. exact O2. }
  destruct (alls_complete _ _ rest [] L) as [g' Hin].
  rewrite <- app_assoc in Hin. rewrite match_at_alls.
  destruct (alls rating_slash_re (w1 ++ w2 ++ rest) []) as [|p l]; [destruct Hin|].
  eexists. reflexivity.
Qed.

Lemma slash_rating_unique t N N' :
  slash_rating_at t N -> slash_rating_at t N' -> N = N'.
Proof.
  intros [w1 [w2 [rest [-> [N1 [O2 ->]]]]]] [w1' [w2' [rest' [E [N1' [O2' ->]]]]]].
  f_equal. apply (number_unique w1 w1' (w2 ++ rest) (w2' ++ rest')); auto;
    apply out_of_ten_ends; assumption.
Qed.

(** The second pattern: after the first "rating", all non-digits are
    skipped and the number is read. *)
Lemma word_alls t :
  alls rating_word_re t [] =
  if is_prefix (lit "rating") t
  then alls (RGroup 1 number_re) (drop_cls CNonDigit (skipn (length (lit "rating")) t)) []
  else [].
Proof.
  unfold rating_word_re. cbn [alls].
  destruct (is_prefix (lit "rating") t); [|reflexivity].
  cbn [flat_map fst snd]. rewrite app_nil_r.
  apply flat_map_star_alls. intros c t' g' Hc. simpl in Hc.
  apply negb_true_iff in Hc. cbn [fst snd]. unfold number_re. cbn [alls cls_ok]. rewrite Hc. reflexivity.
Qed.

Lemma word_match_sound t g :
  match_at rating_word_re t = Some g -> word_rating_at t (decimal_value (group 1 g)).
Proof.
  intros H. rewrite match_at_alls, word_alls in H.
  destruct (is_prefix (lit "rating") t) eqn:Ep; [|discriminate].
  apply is_prefix_app in Ep. revert H Ep.
  generalize (skipn (length (lit "rating")) t) as v. intros v H Ev.
  destruct (drop_cls_split CNonDigit v) as [nd [Env [Fnd Snd]]].
  revert H Env Snd. generalize (drop_cls CNonDigit v) as v1. intros v1 H Env Snd.
  destruct v1 as [|c u']; [discriminate|].
  simpl in Snd. apply negb_false_iff in Snd.
  destruct (number_head c u' [] Snd) as [w [rest [g' [Hh [Eu Lw]]]]].
  rewrite Eu in H, Hh, Lw, Env.
  cbn [alls] in H. destruct (alls number_re (w ++ rest) []) as [|p l]; [discriminate|].
  simpl in Hh. inversion Hh; subst p. cbn [map fst snd] in H. injection H as <-.
  rewrite group_cons_same, firstn_consumed.
  exists nd, (w ++ rest), w. split; [rewrite Ev, Env; reflexivity|]. split; [|auto].
  eapply Forall_impl; [|exact Fnd]. intros a Ha. apply negb_true_iff. exact Ha.
Qed.

Lemma word_match_complete t X :
  word_rating_at t X -> exists g, match_at rating_word_re t = Some g.
Proof.
  intros [nd [u [w [-> [Fnd [Lw _]]]]]].
  destruct (longest_head _ _ Lw) as [c [u' [-> Hc]]].
  rewrite match_at_alls, word_alls, is_prefix_self, skipn_app, skipn_all, Nat.sub_diag.
  cbn [skipn app]. rewrite (drop_cls_app CNonDigit nd).
  - destruct (number_head c u' [] Hc) as [w' [rest [g' [Hh _]]]].
    cbn [alls]. destruct (alls number_re (c :: u') []) as [|p l]; [discriminate|].
    eexists. reflexivity.
  - eapply Forall_impl; [|exact Fnd]. intros a Ha. simpl. rewrite Ha. reflexivity.
  - simpl. rewrite Hc. reflexivity.
Qed.

Lemma word_rating_unique t X X' :
  word_rating_at t X -> word_rating_at t X' -> X = X'.
Proof.
  intros [nd [u [w [-> [Fnd [Lw ->]]]]]] [nd' [u' [w' [E [Fnd' [Lw' ->]]]]]].
  apply app_inv_head in E.
  destruct (longest_head _ _ Lw) as [c [v [Eu Hc]]].
  destruct (longest_head _ _ Lw') as [c' [v' [Eu' Hc']]].
  destruct (run_unique (fun c => negb (is_digit c)) nd nd' u u') as [_ <-].
  - eapply Forall_impl; [|exact Fnd]. intros a Ha. rewrite Ha. reflexivity.
  - eapply Forall_impl; [|exact Fnd']. intros a Ha. rewrite Ha. reflexivity.
  - rewrite Eu. simpl. rewrite Hc. reflexivity.
  - rewrite Eu'. simpl. rewrite Hc'. reflexivity.
  - exact E.
  - rewrite (longest_unique _ _ _ Lw Lw'). reflexivity.
Qed.

(** C6: [extract_rating] returns the float of the number [N] of the
    leftmost rating "N/10" or "N out of 10" of the text (spaces allowed
    around the separator), that is [float(N)], the double nearest to [N];
    if there is none, it takes the number [X] after the first "rating" of
    the lower-cased text (which is where [re.search] finds
    [rating\D*(\d+(\.\d+)?)]) and returns [float(X)] when that float lies
    between 0 and 10, and 5.0 otherwise; if neither pattern occurs it
    returns 5.0. *)
Theorem extract_rating_spec (text : string) :
  let t := list_ascii_of_string text in
  let low := list_ascii_of_string (str_lower text) in
  (forall k N, slash_rating_at (skipn k t) N ->
     (forall j N', j < k -> ~ slash_rating_at (skipn j t) N') ->
     extract_rating text = binary64_of_Q N) /\
  ((forall k N, ~ slash_rating_at (skipn k t) N) ->
     (forall k X, word_rating_at (skipn k low) X ->
        (forall j X', j < k -> ~ word_rating_at (skipn j low) X') ->
        (float_in_0_10 (binary64_of_Q X) -> extract_rating text = binary64_of_Q X) /\
        (~ float_in_0_10 (binary64_of_Q X) -> extract_rating text = PyFin 5)) /\
     ((forall k X, ~ word_rating_at (skipn k low) X) -> extract_rating text = PyFin 5)).
Proof.
  intros t low. unfold extract_rating. fold t low. split; [|intros Hno].
  - intros k N Hs Hmin.
    rewrite (search_skip rating_slash_re k t).
    + destruct (slash_match_complete _ _ Hs) as [g Hg].
      rewrite (search_here _ _ _ Hg). unfold py_float. f_equal.
      symmetry. exact (slash_rating_unique _ _ _ Hs (slash_match_sound _ _ Hg)).
    + intros j Hj. destruct (match_at rating_slash_re (skipn j t)) as [g|] eqn:E; [|reflexivity].
      exfalso. exact (Hmin j _ Hj (slash_match_sound _ _ E)).
  - assert (Hn : search rating_slash_re t = None).
    { apply search_none. intros k.
      destruct (match_at rating_slash_re (skipn k t)) as [g|] eqn:E; [|reflexivity].
      exfalso. exact (Hno k _ (slash_match_sound _ _ E)). }
    rewrite Hn. split.
    + intros k X Hw Hmin.
      rewrite (search_skip rating_word_re k low).
      * destruct (word_match_complete _ _ Hw) as [g Hg].
        rewrite (search_here _ _ _ Hg). unfold py_float.
        rewrite <- (word_rating_unique _ _ _ Hw (word_match_sound _ _ Hg)).
        destruct (binary64_of_Q X) as [q |]; cbn [float_in_0_10 pyfloat_le andb].
        -- split.
           ++ intros [H0 H10]. apply Qle_bool_iff in H0, H10. rewrite H0, H10. reflexivity.
           ++ intros HX. destruct (Qle_bool 0 q) eqn:E0, (Qle_bool q 10) eqn:E10;
                try reflexivity.
              exfalso. apply HX. split; apply Qle_bool_iff; assumption.
        -- split; [intros [] | intros _; reflexivity].
      * intros j Hj. destruct (match_at rating_word_re (skipn j low)) as [g|] eqn:E; [|reflexivity].
        exfalso. exact (Hmin j _ Hj (word_match_sound _ _ E)).
    + intros Hnw. rewrite search_none; [reflexivity|]. intros k.
      destruct (match_at rating_word_re (skipn k low)) as [g|] eqn:E; [|reflexivity].
      exfalso. exact (Hnw k _ (word_match_sound _ _ E)).
Qed.

(** Witness: "7.5/10" gives 7.5; and "rating 10.00000000000000001",
    whose number is above 10 but whose float is 10.0, gives 10.0. *)
Lemma extract_rating_spec_witness :
  extract_rating "7.5/10" = binary64_of_Q (decimal_value (lit "7.5")) /\
  binary64_of_Q (decimal_value (lit "7.5")) = PyFin (15 # 2) /\
  extract_rating "rating 10.00000000000000001" = PyFin 10.
Proof.
  split; [| split; vm_compute; reflexivity].
  destruct (extract_rating_spec "7.5/10") as [Hslash _].
  apply (Hslash 0).
  - exists (lit "7.5"), (lit "/10"), []. split; [reflexivity|]. split; [|split].
    + exists ["7"]. split; [split; [discriminate|repeat constructor]|].
      right. exists ["5"]. split; [split; [discriminate|repeat constructor]|reflexivity].
    + exists [], (lit "/"), []. split; [constructor|]. split; [constructor|].
      split; [left; reflexivity|reflexivity].
    + reflexivity.
  - intros j N' Hj. lia.
Defined.

End RatingFacts.

(* ------------------------------------------------------------------ *)
(** ** Sanitising input *)

Module SanitizeFacts.

Import Py Regex Analyzer UtilsMore.
Local Open Scope string_scope.

(** Membership in the class of [sanitize_input]. *)
Definition dangerous (c : ascii) : bool := existsb (Ascii.eqb c) sanitize_chars.

Lemma sanitize_re_step (c : ascii) (t : list ascii) :
  m sanitize_re (c :: t) [] (fun rest _ => Some [(0%nat, rest)])
  = if dangerous c then Some [(0%nat, t)] else None.
Proof.
  destruct c as [b0 b1 b2 b3 b4 b5 b6 b7].
  destruct b0, b1, b2, b3, b4, b5, b6, b7; reflexivity.
Qed.

Lemma sub_fuel_sanitize (fuel : nat) (t : list ascii) :
  (length t <= fuel)%nat ->
  sub_fuel fuel sanitize_re [] t = filter (fun c => negb (dangerous c)) t.
Proof.
  revert t. induction fuel as [| fuel IH]; intros t Hl.
  - destruct t; [reflexivity | simpl in Hl; lia].
  - destruct t as [| c t]; [reflexivity |].
    simpl in Hl. cbn [sub_fuel]. rewrite sanitize_re_step.
    destruct (dangerous c) eqn:Hd; cbn [negb filter].
    + cbn [group Nat.eqb]. replace (length t <? length (c :: t))%nat with true by (symmetry; apply Nat.ltb_lt; simpl; lia).
      simpl app. rewrite Hd. apply IH. lia.
    + rewrite Hd. cbn [negb]. f_equal. apply IH. lia.
Qed.

Lemma string_list_roundtrip (t : string) : string_of_list_ascii (list_ascii_of_string t) = t.
Proof. apply string_of_list_ascii_of_string. Qed.

(** [sanitize_input] deletes every occurrence of the ten dangerous
    characters and keeps all other characters in their order; [None] and
    the empty string give the empty string. *)
Theorem sanitize_input_filter (text : option string) :
  sanitize_input text =
  match text with
  | None => ""
  | Some t => string_of_list_ascii (filter (fun c => negb (dangerous c)) (list_ascii_of_string t))
  end.
Proof.
  destruct text as [t |]; [| reflexivity].
  unfold sanitize_input.
  destruct (String.eqb_spec t "") as [-> | _]; [reflexivity |].
  unfold re_sub. rewrite sub_fuel_sanitize by lia. reflexivity.
Qed.

(** The text [sanitize_input] returns contains none of the ten characters,
    and sanitizing it again changes nothing. *)
Theorem sanitize_input_clean (text : option string) :
  Forall (fun c => dangerous c = false) (list_ascii_of_string (sanitize_input text)) /\
  sanitize_input (Some (sanitize_input text)) = sanitize_input text.
Proof.
  assert (Hf : forall l : list ascii,
            Forall (fun c => dangerous c = false) (filter (fun c => negb (dangerous c)) l)).
  { intros l. apply Forall_forall. intros c Hc. apply filter_In in Hc as [_ Hc].
    destruct (dangerous c); [discriminate | reflexivity]. }
  assert (Hid : forall l : list ascii,
            Forall (fun c => dangerous c = false) l -> filter (fun c => negb (dangerous c)) l = l).
  { intros l Hl. induction Hl as [| c l Hc Hl IH]; [reflexivity |].
    simpl. rewrite Hc. simpl. rewrite IH. reflexivity. }
  assert (Hs : Forall (fun c => dangerous c = false) (list_ascii_of_string (sanitize_input text))).
  { rewrite sanitize_input_filter. destruct text as [t |]; [| constructor].
    rewrite list_ascii_of_string_of_list_ascii. apply Hf. }
  split; [exact Hs |].
  rewrite (sanitize_input_filter (Some _)). rewrite (Hid _ Hs).
  apply string_list_roundtrip.
Qed.

End SanitizeFacts.

(* ------------------------------------------------------------------ *)
(** ** Time periods named in text *)

Module TimePeriodFacts.

Import Py UtilsMore.
Local Open Scope string_scope.

Lemma prefix_suffix_contains (p q x : string) :
  String.prefix (p ++ q) x = true -> str_contains q x = true.
Proof.
  revert x. induction p as [| a p IH]; intros x H.
  - destruct x; simpl in *; rewrite H; reflexivity.
  - destruct x as [| b x]; [discriminate |].
    simpl in H. destruct (ascii_dec a b); [| discriminate].
    simpl. rewrite (IH x H). apply orb_true_r.
Qed.

Lemma contains_suffix (p q x : string) :
  str_contains q x = false -> str_contains (p ++ q) x = false.
Proof.
  intros Hq. destruct (str_contains (p ++ q) x) eqn:H; [| reflexivity].
  rewrite <- Hq. symmetry. clear Hq.
  induction x as [| b x IH].
  - cbn [str_contains] in H. rewrite orb_false_r in H. exact (prefix_suffix_contains p q _ H).
  - cbn [str_contains] in H. apply orb_prop in H as [H | H].
    + exact (prefix_suffix_contains p q _ H).
    + cbn [str_contains]. rewrite (IH H). apply orb_true_r.
Qed.

(** [extract_time_period] with the tests that can never decide its result
    left out. *)
Definition extract_time_period_effective (text : string) : string :=
  let text := str_lower text in
  if str_contains "24h" text || str_contains "24 hour" text || str_contains "day" text then "24h"
  else if str_contains "7d" text || str_contains "week" text then "7d"
  else if str_contains "30d" text || str_contains "month" text then "30d"
  else if str_contains "90d" text || str_contains "quarter" text then "90d"
  else if str_contains "1y" text || str_contains "year" text then "1y"
  else "All Time".

(** The tests for "7 day", "30 day", "90 day", "365 day", "3 month" and
    "12 month" in [extract_time_period] are dead: a text containing them
    also contains "day" or "month", which an earlier branch catches, so
    "next 7 days" gives "24h" and "3 months" gives "30d". *)
Theorem extract_time_period_dead_tests (text : string) :
  extract_time_period text = extract_time_period_effective text.
Proof.
  unfold extract_time_period, extract_time_period_effective.
  set (l := str_lower text).
  destruct (str_contains "day" l) eqn:D.
  - rewrite !orb_true_r. reflexivity.
  - rewrite (contains_suffix "7 " "day" l D : str_contains "7 day" l = false), (contains_suffix "30 " "day" l D : str_contains "30 day" l = false),
      (contains_suffix "90 " "day" l D : str_contains "90 day" l = false), (contains_suffix "365 " "day" l D : str_contains "365 day" l = false).
    rewrite !orb_false_r.
    destruct (str_contains "month" l) eqn:Mo.
    + rewrite !orb_true_r. reflexivity.
    + rewrite (contains_suffix "3 " "month" l Mo : str_contains "3 month" l = false), (contains_suffix "12 " "month" l Mo : str_contains "12 month" l = false).
      rewrite !orb_false_r. reflexivity.
Qed.

End TimePeriodFacts.

(* ------------------------------------------------------------------ *)
(** ** Comparable tokens *)

Module ComparableFacts.

Import Py UtilsMore.
Local Open Scope nat_scope.
Local Open Scope string_scope.

Lemma mem_In t xs : mem t xs = true <-> In t xs.
Proof.
  unfold mem. rewrite existsb_exists. split.
  - intros (x & Hx & E). apply String.eqb_eq in E. subst. exact Hx.
  - intros H. exists t. split; [exact H | apply String.eqb_refl].
Qed.

Lemma firstn_prefix_in {A} k (xs : list A) x : In x (firstn k xs) -> In x xs.
Proof.
  intros H. rewrite <- (firstn_skipn k xs). apply in_or_app. left. exact H.
Qed.

Lemma firstn_prefix_nodup {A} k (xs : list A) : NoDup xs -> NoDup (firstn k xs).
Proof.
  intros H. rewrite <- (firstn_skipn k xs) in H. exact (NoDup_app_remove_r _ _ H).
Qed.

Lemma py_slice_to_firstn {A} (xs : list A) n : exists k, py_slice_to xs n = firstn k xs.
Proof. unfold py_slice_to. destruct (0 <=? n)%Z; eexists; reflexivity. Qed.

Lemma py_slice_to_in {A} (xs : list A) n x : In x (py_slice_to xs n) -> In x xs.
Proof. destruct (py_slice_to_firstn xs n) as [k ->]. apply firstn_prefix_in. Qed.

Lemma py_slice_to_nodup {A} (xs : list A) n : NoDup xs -> NoDup (py_slice_to xs n).
Proof. destruct (py_slice_to_firstn xs n) as [k ->]. apply firstn_prefix_nodup. Qed.

Lemma py_slice_to_nonneg {A} (xs : list A) n :
  (0 <= n)%Z -> py_slice_to xs n = firstn (Z.to_nat n) xs.
Proof. intros H. unfold py_slice_to. apply Z.leb_le in H. rewrite H. reflexivity. Qed.

Lemma find_group_token_groups token g :
  find_group token token_groups = Some g ->
  exists ts, assoc g token_groups = Some ts /\ In token ts /\ g <> "".
Proof.
  unfold token_groups; cbn [find_group].
  repeat (match goal with |- context [mem token ?l] => destruct (mem token l) eqn:? end;
          [intros [= <-]; eexists; split; [reflexivity | split; [apply mem_In; assumption | discriminate]] |]).
  intros [=].
Qed.

Lemma token_groups_nodup g ts : assoc g token_groups = Some ts -> NoDup ts.
Proof.
  unfold token_groups; cbn [assoc].
  repeat (match goal with |- context [String.eqb g ?n] => destruct (String.eqb g n) end; [intros [= <-]; repeat constructor; simpl; intuition discriminate |]).
  intros [=].
Qed.

Lemma token_groups_member g ts token :
  In (g, ts) token_groups -> In token ts ->
  find_group token token_groups = Some g /\ assoc g token_groups = Some ts.
Proof.
  intros Hg Ht. simpl in Hg.
  repeat (destruct Hg as [Hg | Hg]; [injection Hg as <- <-; simpl in Ht;
            repeat (destruct Ht as [<- | Ht]; [split; reflexivity |]); destruct Ht |]).
  destruct Hg.
Qed.

Lemma filter_filter_and {A} (f g : A -> bool) xs :
  filter g (filter f xs) = filter (fun x => f x && g x) xs.
Proof.
  induction xs as [| x xs IH]; simpl; [reflexivity |].
  destruct (f x); simpl; [destruct (g x); simpl; rewrite IH; reflexivity | exact IH].
Qed.

Lemma nodup_filter_mem_length (c l : list string) :
  NoDup c -> NoDup l -> incl c l -> length (filter (fun t => mem t c) l) = length c.
Proof.
  intros Hc Hl Hi. apply Nat.le_antisymm.
  - apply NoDup_incl_length; [apply NoDup_filter; exact Hl |].
    intros x Hx. apply filter_In in Hx. apply mem_In. apply Hx.
  - apply NoDup_incl_length; [exact Hc |].
    intros x Hx. apply filter_In. split; [apply Hi; exact Hx | apply mem_In; exact Hx].
Qed.

(** The two lists [get_comparable_tokens] builds when the token has a
    group with members [ts]: the members present in [top_tokens], and the
    other tokens of [top_tokens]. *)
Definition group_peers (token : string) (top_tokens ts : list string) : list string :=
  filter (fun t => negb (String.eqb t token) && mem t top_tokens) ts.

Definition non_peers (token : string) (top_tokens peers : list string) : list string :=
  filter (fun t => negb (String.eqb t token) && negb (mem t peers)) top_tokens.

Definition others (token : string) (top_tokens : list string) : list string :=
  filter (fun t => negb (String.eqb t token)) top_tokens.

Lemma group_branch token top count g :
  find_group token token_groups = Some g ->
  exists ts, In token ts /\ NoDup ts /\
  get_comparable_tokens token top count =
  Ok (py_slice_to
        (if (Z.of_nat (length (group_peers token top ts)) <? count)%Z
         then (group_peers token top ts ++
               py_slice_to (non_peers token top (group_peers token top ts))
                 (count - Z.of_nat (length (group_peers token top ts))))%list
         else group_peers token top ts) count).
Proof.
  intros Hf. destruct (find_group_token_groups _ _ Hf) as (ts & Ha & Hin & Hne).
  exists ts. split; [exact Hin |]. split; [exact (token_groups_nodup _ _ Ha) |].
  unfold get_comparable_tokens. rewrite Hf.
  replace (negb (g =? "")) with true by (destruct (String.eqb_spec g ""); [contradiction | reflexivity]).
  rewrite Ha. reflexivity.
Qed.

Lemma no_group_branch token top count :
  find_group token token_groups = None ->
  get_comparable_tokens token top count = Ok (py_slice_to (others token top) count).
Proof. intros Hf. unfold get_comparable_tokens. rewrite Hf. reflexivity. Qed.

Lemma peers_in token top ts x : In x (group_peers token top ts) -> x <> token /\ In x top.
Proof.
  unfold group_peers. intros Hx. apply filter_In in Hx as [_ Hx].
  apply andb_prop in Hx as [H1 H2]. split.
  - intros ->. rewrite String.eqb_refl in H1. discriminate.
  - apply mem_In. exact H2.
Qed.

Lemma non_peers_in token top c x :
  In x (non_peers token top c) -> x <> token /\ In x top /\ ~ In x c.
Proof.
  unfold non_peers. intros Hx. apply filter_In in Hx as [Ht Hx].
  apply andb_prop in Hx as [H1 H2]. split; [| split; [exact Ht |]].
  - intros ->. rewrite String.eqb_refl in H1. discriminate.
  - intros Hc. apply mem_In in Hc. rewrite Hc in H2. discriminate.
Qed.

Lemma others_in token top x : In x (others token top) <-> x <> token /\ In x top.
Proof.
  unfold others. rewrite filter_In. split.
  - intros [Ht H1]. split; [| exact Ht]. intros ->. rewrite String.eqb_refl in H1. discriminate.
  - intros [Hne Ht]. split; [exact Ht |]. destruct (String.eqb_spec x token); [contradiction | reflexivity].
Qed.

(** [get_comparable_tokens] never raises (the [KeyError] of
    [token_groups[token_group]] cannot happen), never returns the token
    itself, and returns only tokens of [top_tokens]. *)
Theorem get_comparable_tokens_sound (token : string) (top_tokens : list string) (count : Z) :
  exists l, get_comparable_tokens token top_tokens count = Ok l /\
            ~ In token l /\ incl l top_tokens.
Proof.
  destruct (find_group token token_groups) as [g |] eqn:Hf.
  - destruct (group_branch token top_tokens count g Hf) as (ts & _ & _ & ->).
    eexists. split; [reflexivity |].
    assert (H : forall x, In x (py_slice_to
        (if (Z.of_nat (length (group_peers token top_tokens ts)) <? count)%Z
         then (group_peers token top_tokens ts ++
               py_slice_to (non_peers token top_tokens (group_peers token top_tokens ts))
                 (count - Z.of_nat (length (group_peers token top_tokens ts))))%list
         else group_peers token top_tokens ts) count) -> x <> token /\ In x top_tokens).
    { intros x Hx. apply py_slice_to_in in Hx.
      destruct (_ <? count)%Z.
      - apply in_app_or in Hx as [Hx | Hx].
        + exact (peers_in _ _ _ _ Hx).
        + apply py_slice_to_in in Hx. apply non_peers_in in Hx. tauto.
      - exact (peers_in _ _ _ _ Hx). }
    split.
    + intros Hin. exact (proj1 (H token Hin) eq_refl).
    + intros x Hx. exact (proj2 (H x Hx)).
  - rewrite (no_group_branch _ _ _ Hf). eexists. split; [reflexivity |]. split.
    + intros Hin. apply py_slice_to_in, others_in in Hin. tauto.
    + intros x Hx. apply py_slice_to_in, others_in in Hx. tauto.
Qed.

Lemma peers_facts token top ts :
  NoDup ts -> NoDup top ->
  NoDup (group_peers token top ts) /\
  incl (group_peers token top ts) (others token top) /\
  NoDup (non_peers token top (group_peers token top ts)) /\
  length (non_peers token top (group_peers token top ts)) + length (group_peers token top ts)
    = length (others token top).
Proof.
  intros Hts Htop.
  set (c := group_peers token top ts).
  assert (Hc : NoDup c) by (apply NoDup_filter; exact Hts).
  assert (Hi : incl c (others token top)).
  { intros x Hx. apply others_in. exact (peers_in _ _ _ _ Hx). }
  assert (Ho : NoDup (others token top)) by (apply NoDup_filter; exact Htop).
  split; [exact Hc |]. split; [exact Hi |]. split; [apply NoDup_filter; exact Htop |].
  assert (E : non_peers token top c = filter (fun t => negb (mem t c)) (others token top))
    by (unfold non_peers, others; rewrite filter_filter_and; reflexivity).
  rewrite E, <- (nodup_filter_mem_length c (others token top) Hc Ho Hi).
  rewrite Nat.add_comm. apply filter_length.
Qed.

(** With distinct [top_tokens] and [count >= 0], [get_comparable_tokens]
    returns distinct tokens, exactly [min count n] of them where [n] is the
    number of entries of [top_tokens] other than the token: the group
    members are topped up from [top_tokens] as far as they go. *)
Theorem get_comparable_tokens_length (token : string) (top_tokens : list string) (count : Z)
    (Hnd : NoDup top_tokens) (Hc : (0 <= count)%Z) :
  exists l, get_comparable_tokens token top_tokens count = Ok l /\ NoDup l /\
            length l = Nat.min (Z.to_nat count) (length (others token top_tokens)).
Proof.
  destruct (find_group token token_groups) as [g |] eqn:Hf.
  - destruct (group_branch token top_tokens count g Hf) as (ts & _ & Hts & ->).
    eexists. split; [reflexivity |].
    destruct (peers_facts token top_tokens ts Hts Hnd) as (Hcn & Hci & Han & Hlen).
    set (c := group_peers token top_tokens ts) in *.
    set (a := non_peers token top_tokens c) in *.
    rewrite py_slice_to_nonneg by exact Hc.
    destruct (Z.of_nat (length c) <? count)%Z eqn:Hlt.
    + apply Z.ltb_lt in Hlt.
      rewrite py_slice_to_nonneg by lia.
      assert (Hd : forall x, In x c -> ~ In x (firstn (Z.to_nat (count - Z.of_nat (length c))) a)).
      { intros x Hx Hx'. apply firstn_prefix_in in Hx'.
        apply non_peers_in in Hx' as (_ & _ & Hx'). contradiction. }
      rewrite firstn_all2.
      * split.
        -- apply NoDup_app; [exact Hcn | apply firstn_prefix_nodup; exact Han | exact Hd].
        -- rewrite length_app, length_firstn. lia.
      * rewrite length_app, length_firstn. lia.
    + apply Z.ltb_ge in Hlt. split; [apply firstn_prefix_nodup; exact Hcn |].
      rewrite length_firstn. lia.
  - rewrite (no_group_branch _ _ _ Hf). eexists. split; [reflexivity |].
    rewrite py_slice_to_nonneg by exact Hc. split.
    + apply firstn_prefix_nodup, NoDup_filter. exact Hnd.
    + apply length_firstn.
Qed.

(** For a token of one of the eight groups and [count >= 0], the result
    is the first [count] tokens of: the group's other members present in
    [top_tokens], in group order, followed by the remaining tokens of
    [top_tokens], in their order. *)
Theorem get_comparable_tokens_group_first (token g : string) (ts top_tokens : list string)
    (count : Z) (Hg : In (g, ts) token_groups) (Ht : In token ts) (Hc : (0 <= count)%Z) :
  get_comparable_tokens token top_tokens count =
  Ok (firstn (Z.to_nat count)
        (group_peers token top_tokens ts ++
         non_peers token top_tokens (group_peers token top_tokens ts))%list).
Proof.
  destruct (token_groups_member g ts token Hg Ht) as [Hf Ha].
  destruct (find_group_token_groups _ _ Hf) as (ts' & Ha' & _ & Hne).
  rewrite Ha in Ha'. injection Ha' as <-.
  unfold get_comparable_tokens. rewrite Hf.
  replace (negb (g =? "")) with true by (destruct (String.eqb_spec g ""); [contradiction | reflexivity]).
  rewrite Ha. fold (group_peers token top_tokens ts).
  fold (non_peers token top_tokens (group_peers token top_tokens ts)).
  set (c := group_peers token top_tokens ts).
  set (a := non_peers token top_tokens c).
  f_equal. rewrite py_slice_to_nonneg by exact Hc.
  rewrite firstn_app.
  destruct (Z.of_nat (length c) <? count)%Z eqn:Hlt.
  - apply Z.ltb_lt in Hlt. rewrite py_slice_to_nonneg by lia.
    rewrite firstn_app, firstn_firstn.
    f_equal. f_equal. lia.
  - apply Z.ltb_ge in Hlt.
    replace (Z.to_nat count - length c)%nat with 0%nat by lia.
    rewrite app_nil_r. reflexivity.
Qed.

(** Witness: "BTC" among four distinct tokens, three comparables. *)
Lemma get_comparable_tokens_length_witness :
  NoDup ["BTC"; "ETH"; "XRP"; "DOGE"] /\ (0 <= 3)%Z /\
  exists l, get_comparable_tokens "BTC" ["BTC"; "ETH"; "XRP"; "DOGE"] 3 = Ok l /\ NoDup l /\
            length l = Nat.min (Z.to_nat 3) (length (others "BTC" ["BTC"; "ETH"; "XRP"; "DOGE"])).
Proof.
  assert (Hnd : NoDup ["BTC"; "ETH"; "XRP"; "DOGE"])
    by (repeat constructor; simpl; intuition discriminate).
  split; [exact Hnd |]. split; [lia |].
  apply (get_comparable_tokens_length "BTC" ["BTC"; "ETH"; "XRP"; "DOGE"] 3 Hnd); lia.
Defined.

(** Witness: "ETH" of the layer-1 group, two comparables. *)
Lemma get_comparable_tokens_group_first_witness :
  In ("layer1", ["BTC"; "ETH"; "SOL"; "ADA"; "DOT"; "AVAX"]) token_groups /\
  In "ETH" ["BTC"; "ETH"; "SOL"; "ADA"; "DOT"; "AVAX"] /\ (0 <= 2)%Z /\
  get_comparable_tokens "ETH" ["BTC"; "ETH"; "XRP"; "SOL"] 2 =
  Ok (firstn (Z.to_nat 2)
        (group_peers "ETH" ["BTC"; "ETH"; "XRP"; "SOL"] ["BTC"; "ETH"; "SOL"; "ADA"; "DOT"; "AVAX"] ++
         non_peers "ETH" ["BTC"; "ETH"; "XRP"; "SOL"]
           (group_peers "ETH" ["BTC"; "ETH"; "XRP"; "SOL"] ["BTC"; "ETH"; "SOL"; "ADA"; "DOT"; "AVAX"]))%list).
Proof.
  assert (Hg : In ("layer1", ["BTC"; "ETH"; "SOL"; "ADA"; "DOT"; "AVAX"]) token_groups)
    by (simpl; left; reflexivity).
  assert (Ht : In "ETH" ["BTC"; "ETH"; "SOL"; "ADA"; "DOT"; "AVAX"]) by (simpl; auto).
  split; [exact Hg |]. split; [exact Ht |]. split; [lia |].
  apply (get_comparable_tokens_group_first "ETH" "layer1" _ ["BTC"; "ETH"; "XRP"; "SOL"] 2 Hg Ht).
  lia.
Defined.

End ComparableFacts.

(* ------------------------------------------------------------------ *)
(** ** Random test series *)

Module RandomDataFacts.

Import Py Api UtilsMore.
Local Open Scope Z_scope.

(** The values of the random walk, reading random numbers from the
    [d]-th draw on. *)
Fixpoint walk_values (e : env) (d : nat) (volatility : Q) (k : nat) (last : Q) : list Q :=
  match k with
  | O => []
  | S k' =>
      let v := (last * (1 + uniform (- volatility) volatility (random_at e d)))%Q in
      v :: walk_values e (S d) volatility k' v
  end.

Lemma random_walk_run volatility k last e s :
  random_walk volatility k last e s =
  (Ok (walk_values e (ndraw s) volatility k last),
   mkst (nreq s) (ndraw s + k) (nllm s) (log s)).
Proof.
  revert last s. induction k as [| k IH]; intros last s.
  - destruct s; simpl. rewrite Nat.add_0_r. reflexivity.
  - simpl. unfold bind, random_uniform, random_random, bind, ret. simpl.
    rewrite IH. simpl. rewrite Nat.add_succ_r. reflexivity.
Qed.

Lemma length_walk_values e d vol k last : length (walk_values e d vol k last) = k.
Proof. revert d last. induction k; intros; simpl; [reflexivity | rewrite IHk; reflexivity]. Qed.

Lemma us_per_day_pos : 0 < us_per_day.
Proof. unfold us_per_day. lia. Qed.

(** When [end_date] is before [start_date], [(end_date - start_date).days + 1]
    is at most 0: there are no dates but still the base value, and building
    the DataFrame fails with pandas' [ValueError]; no random number is
    drawn. *)
Theorem generate_random_data_reversed (start_date end_date : Z) (base_value volatility : Q)
    (e : env) (s : st) (Hlt : end_date < start_date) :
  generate_random_data start_date end_date base_value volatility e s =
  (Exc (ValueError "All arrays must be of the same length"%string), s).
Proof.
  assert (Hd : td_days (end_date - start_date) < 0).
  { unfold td_days. apply Z.div_lt_upper_bound; [exact us_per_day_pos | lia]. }
  unfold generate_random_data.
  replace (Z.to_nat (td_days (end_date - start_date) + 1)) with 0%nat by lia.
  replace (Z.to_nat (td_days (end_date - start_date) + 1 - 1)) with 0%nat by lia.
  destruct s. reflexivity.
Qed.

Lemma generate_random_data_run start_date end_date base_value volatility e s :
  start_date <= end_date ->
  let n := Z.to_nat (td_days (end_date - start_date) + 1) in
  generate_random_data start_date end_date base_value volatility e s =
  (Ok (map (fun i => start_date + timedelta_days (Z.of_nat i)) (seq 0 n),
       base_value :: walk_values e (ndraw s) volatility (n - 1) base_value),
   mkst (nreq s) (ndraw s + (n - 1)) (nllm s) (log s)).
Proof.
  intros Hle n.
  assert (Hd : 0 <= td_days (end_date - start_date))
    by (unfold td_days; apply Z.div_pos; [lia | exact us_per_day_pos]).
  unfold generate_random_data, bind. fold n.
  replace (Z.to_nat (td_days (end_date - start_date) + 1 - 1)) with (n - 1)%nat by lia.
  rewrite random_walk_run. unfold dataframe2.
  rewrite length_map, length_seq. cbn [length]. rewrite length_walk_values.
  replace (Nat.eqb n (S (n - 1))) with true by (symmetry; apply Nat.eqb_eq; lia).
  reflexivity.
Qed.

Lemma nth_map_lt {A B} (f : A -> B) (l : list A) i (d : B) (a : A) :
  (i < length l)%nat -> nth i (map f l) d = f (nth i l a).
Proof.
  revert i. induction l as [| x l IH]; intros i Hi; simpl in Hi; [lia |].
  destruct i; simpl; [reflexivity | apply IH; lia].
Qed.

(** For [start_date <= end_date], [generate_random_data] succeeds with
    [n = (end_date - start_date).days + 1] consecutive days from
    [start_date] and [n] values starting at [base_value], drawing [n - 1]
    random numbers and making no request. *)
Theorem generate_random_data_shape (start_date end_date : Z) (base_value volatility : Q)
    (e : env) (s : st) (Hle : start_date <= end_date) :
  exists dates values s',
    generate_random_data start_date end_date base_value volatility e s = (Ok (dates, values), s') /\
    let n := Z.to_nat (td_days (end_date - start_date) + 1) in
    length dates = n /\ length values = n /\
    (forall i, (i < n)%nat -> nth i dates 0 = start_date + timedelta_days (Z.of_nat i)) /\
    hd_error values = Some base_value /\
    ndraw s' = (ndraw s + (n - 1))%nat /\ nreq s' = nreq s /\ log s' = log s.
Proof.
  eexists _, _, _. split; [exact (generate_random_data_run _ _ base_value volatility e s Hle) |].
  intros n.
  assert (Hd : 0 <= td_days (end_date - start_date))
    by (unfold td_days; apply Z.div_pos; [lia | exact us_per_day_pos]).
  split; [rewrite length_map, length_seq; reflexivity |].
  split; [cbn [length]; rewrite length_walk_values; lia |].
  split; [| repeat split; reflexivity].
  intros i Hi. rewrite (nth_map_lt (fun i => start_date + timedelta_days (Z.of_nat i)) _ _ _ 0%nat)
    by (rewrite length_seq; exact Hi).
  rewrite seq_nth by exact Hi. reflexivity.
Qed.

(** A world whose random source always answers one half. *)
Definition half_env : env :=
  mkenv (fun _ _ => HttpNoResponse) (fun _ => 1 # 2) 0 (fun _ => None) (fun t => t)
    (fun _ => None) (fun _ _ => None).

Definition walk_st : st := mkst 0 0 0 [].

(** Witness: an end date one day before the start date. *)
Lemma generate_random_data_reversed_witness :
  timedelta_days 0 < timedelta_days 1 /\
  generate_random_data (timedelta_days 1) (timedelta_days 0) 100 (1 # 20) half_env walk_st =
  (Exc (ValueError "All arrays must be of the same length"%string), walk_st).
Proof.
  assert (H : timedelta_days 0 < timedelta_days 1) by (unfold timedelta_days, us_per_day; lia).
  split; [exact H |].
  exact (generate_random_data_reversed _ _ 100 (1 # 20) half_env walk_st H).
Defined.

(** Witness: a three-day series. *)
Lemma generate_random_data_shape_witness :
  0 <= timedelta_days 2 /\
  exists dates values s',
    generate_random_data 0 (timedelta_days 2) 100 (1 # 20) half_env walk_st = (Ok (dates, values), s') /\
    let n := Z.to_nat (td_days (timedelta_days 2 - 0) + 1) in
    length dates = n /\ length values = n /\
    (forall i, (i < n)%nat -> nth i dates 0 = 0 + timedelta_days (Z.of_nat i)) /\
    hd_error values = Some 100%Q /\
    ndraw s' = (ndraw walk_st + (n - 1))%nat /\ nreq s' = nreq walk_st /\ log s' = log walk_st.
Proof.
  assert (H : 0 <= timedelta_days 2) by (unfold timedelta_days, us_per_day; lia).
  split; [exact H |].
  exact (generate_random_data_shape 0 (timedelta_days 2) 100 (1 # 20) half_env walk_st H).
Defined.

End RandomDataFacts.

(* ------------------------------------------------------------------ *)
(** ** The token list *)

Module TokenListFacts.

Import Py Api ApiService.
Local Open Scope string_scope.

Lemma nat_of_ascii_inj (a b : ascii) : nat_of_ascii a = nat_of_ascii b -> a = b.
Proof.
  intros H. rewrite <- (ascii_nat_embedding a), <- (ascii_nat_embedding b), H. reflexivity.
Qed.

Lemma str_ltb_irrefl x : str_ltb x x = false.
Proof.
  induction x as [| c x IH]; simpl; [reflexivity |].
  rewrite Nat.ltb_irrefl, Nat.eqb_refl. exact IH.
Qed.

Lemma str_ltb_trans x y z : str_ltb x y = true -> str_ltb y z = true -> str_ltb x z = true.
Proof.
  revert y z. induction x as [| a x IH]; intros [| b y] [| c z]; simpl; try discriminate; auto.
  intros H1 H2.
  destruct (Nat.ltb_spec (nat_of_ascii a) (nat_of_ascii b));
  destruct (Nat.ltb_spec (nat_of_ascii b) (nat_of_ascii c));
  destruct (Nat.ltb_spec (nat_of_ascii a) (nat_of_ascii c)); try reflexivity;
  destruct (Nat.eqb_spec (nat_of_ascii a) (nat_of_ascii b)); try discriminate;
  destruct (Nat.eqb_spec (nat_of_ascii b) (nat_of_ascii c)); try discriminate;
  destruct (Nat.eqb_spec (nat_of_ascii a) (nat_of_ascii c)); try lia.
  exact (IH y z H1 H2).
Qed.

Lemma str_ltb_total x y : str_ltb x y = false -> x <> y -> str_ltb y x = true.
Proof.
  revert y. induction x as [| a x IH]; intros [| b y]; simpl; intros H Hne;
    try reflexivity; try discriminate; try (exfalso; apply Hne; reflexivity).
  destruct (Nat.ltb_spec (nat_of_ascii a) (nat_of_ascii b)); [discriminate |].
  destruct (Nat.eqb_spec (nat_of_ascii a) (nat_of_ascii b)) as [E | E].
  - rewrite E, Nat.ltb_irrefl, Nat.eqb_refl. apply IH; [exact H |].
    intros ->. apply Hne. f_equal. apply nat_of_ascii_inj. exact E.
  - destruct (Nat.ltb_spec (nat_of_ascii b) (nat_of_ascii a)); [reflexivity | lia].
Qed.

Definition str_lt (x y : string) : Prop := str_ltb x y = true.

Lemma insert_sorted_In x xs z : In z (insert_sorted x xs) <-> z = x \/ In z xs.
Proof.
  induction xs as [| y ys IH]; simpl; [firstorder congruence |].
  destruct (str_ltb x y); [simpl; firstorder congruence |].
  destruct (String.eqb_spec x y) as [-> | _]; [simpl; firstorder congruence |].
  simpl. rewrite IH. firstorder congruence.
Qed.

Lemma insert_sorted_hd a x xs : HdRel str_lt a xs -> str_lt a x -> HdRel str_lt a (insert_sorted x xs).
Proof.
  intros Hh Hx. destruct xs as [| y ys]; simpl; [constructor; exact Hx |].
  destruct (str_ltb x y); [constructor; exact Hx |].
  destruct (String.eqb x y); [exact Hh |].
  inversion Hh; subst. constructor. assumption.
Qed.

Lemma insert_sorted_sorted x xs : Sorted str_lt xs -> Sorted str_lt (insert_sorted x xs).
Proof.
  induction 1 as [| y ys Hs IH Hh]; simpl.
  - repeat constructor.
  - destruct (str_ltb x y) eqn:E1.
    + constructor; [constructor; assumption | constructor; exact E1].
    + destruct (String.eqb_spec x y) as [-> | Hne]; [constructor; assumption |].
      constructor; [exact IH |]. apply insert_sorted_hd; [exact Hh |].
      apply str_ltb_total; [exact E1 | exact Hne].
Qed.

Lemma sorted_set_sorted xs : Sorted str_lt (sorted_set xs).
Proof. induction xs as [| x xs IH]; simpl; [constructor | apply insert_sorted_sorted; exact IH]. Qed.

Lemma sorted_set_In xs z : In z (sorted_set xs) <-> In z xs.
Proof.
  induction xs as [| x xs IH]; simpl; [tauto |].
  rewrite insert_sorted_In, IH. firstorder congruence.
Qed.

Lemma sorted_lt_nodup xs : Sorted str_lt xs -> NoDup xs.
Proof.
  intros H. apply Sorted_StronglySorted in H; [| intros a b c; apply str_ltb_trans].
  induction H as [| x xs _ IH Hall]; constructor; [| exact IH].
  intros Hin. rewrite Forall_forall in Hall. specialize (Hall x Hin).
  unfold str_lt in Hall. rewrite str_ltb_irrefl in Hall. discriminate.
Qed.

Lemma bind_ok {A B} (m : M A) (k : A -> M B) e s b s' :
  bind m k e s = (Ok b, s') -> exists a s1, m e s = (Ok a, s1) /\ k a e s1 = (Ok b, s').
Proof.
  unfold bind. destruct (m e s) as [[a | x] s1]; [| discriminate].
  intros H. exists a, s1. split; [reflexivity | exact H].
Qed.

(** [get_token_list] never raises: it returns either the hard-coded
    fallback list or a list of distinct symbols in increasing order. *)
Theorem get_token_list_shape (e : env) (s : st) :
  exists l s', get_token_list e s = (Ok l, s') /\
    (l = token_list_fallback \/ (Sorted str_lt l /\ NoDup l)).
Proof.
  unfold get_token_list, try_except.
  match goal with |- context [match ?t with _ => _ end] => destruct t as [[a | x] s1] eqn:E end.
  - exists a, s1. split; [reflexivity |]. right.
    apply bind_ok in E as (resp & s2 & _ & E).
    apply bind_ok in E as (coins & s3 & _ & E).
    apply bind_ok in E as (tokens & s4 & _ & E).
    injection E as <- _.
    split; [apply sorted_set_sorted | apply sorted_lt_nodup, sorted_set_sorted].
  - eexists _, _. split; [reflexivity | left; reflexivity].
Qed.

Definition coins_list_url : string := COINGECKO_BASE_URL ++ "/coins/list".

Lemma request_first_ok e s url body :
  http_get e (nreq s) url = HttpOk body ->
  make_api_request_dflt url [] (Some []) e s
  = (Ok body, mkst (S (nreq s)) (ndraw s) (nllm s) (log s ++ [EvRequest url])).
Proof.
  intros H. unfold make_api_request_dflt, make_api_request.
  change (Z.to_nat 3) with 3%nat. cbn [retry_loop].
  unfold bind at 1, http_request. cbn [nreq]. rewrite H. reflexivity.
Qed.

Definition symbol_upper (coin : json) : M string :=
  sym <- getkey coin "symbol" ;; py_upper sym.

Lemma symbol_upper_pure coin e s :
  symbol_upper coin e s = (fst (symbol_upper coin e s), s).
Proof.
  unfold symbol_upper, getkey, py_upper, bind.
  destruct coin as [| | | | | kvs]; try reflexivity.
  destruct (assoc "symbol" kvs) as [[] |]; reflexivity.
Qed.

Lemma mapM_symbols e s coins :
  Forall (fun coin => exists kvs sym, coin = JObj kvs /\ assoc "symbol" kvs = Some (JStr sym)) coins ->
  exists tokens, mapM symbol_upper coins e s = (Ok tokens, s) /\
    forall x, In x tokens <-> exists kvs sym,
      In (JObj kvs) coins /\ assoc "symbol" kvs = Some (JStr sym) /\ x = str_upper sym.
Proof.
  induction 1 as [| coin coins (kvs & sym & -> & Hk) _ (tokens & Ht & Hin)].
  - exists []. split; [reflexivity |]. intros x. simpl. firstorder.
  - exists (str_upper sym :: tokens). split.
    + cbn [mapM]. unfold bind at 1. unfold symbol_upper at 1, getkey, bind at 1.
      rewrite Hk. cbn [ret py_upper]. unfold bind. rewrite Ht. reflexivity.
    + intros x. simpl. rewrite Hin. split.
      * intros [<- | (kvs' & sym' & H1 & H2 & H3)].
        -- exists kvs, sym. auto.
        -- exists kvs', sym'. auto.
      * intros (kvs' & sym' & [E | H1] & H2 & H3).
        -- injection E as <-. rewrite Hk in H2. injection H2 as <-. left. congruence.
        -- right. exists kvs', sym'. auto.
Qed.

(** When [/coins/list] answers at once with a list of coin objects that
    all have a string ["symbol"] of ASCII text, [get_token_list] returns,
    after that one request, the upper-cased symbols without duplicates in
    increasing order: the list holds exactly the upper-cased symbols of the
    coins. *)
Theorem get_token_list_symbols (e : env) (s : st) (coins : list json)
    (Hh : http_get e (nreq s) coins_list_url = HttpOk (JArr coins))
    (Hc : Forall (fun coin => exists kvs sym,
                    coin = JObj kvs /\ assoc "symbol" kvs = Some (JStr sym) /\
                    is_ascii_str sym = true) coins) :
  exists l,
    get_token_list e s
    = (Ok l, mkst (S (nreq s)) (ndraw s) (nllm s) (log s ++ [EvRequest coins_list_url])) /\
    Sorted str_lt l /\ NoDup l /\
    forall x, In x l <-> exists kvs sym,
      In (JObj kvs) coins /\ assoc "symbol" kvs = Some (JStr sym) /\ x = str_upper sym.
Proof.
  assert (Hc' : Forall (fun coin => exists kvs sym,
                    coin = JObj kvs /\ assoc "symbol" kvs = Some (JStr sym)) coins).
  { eapply Forall_impl; [| exact Hc]. intros coin (kvs & sym & H1 & H2 & _). eauto. }
  destruct (mapM_symbols e (mkst (S (nreq s)) (ndraw s) (nllm s) (log s ++ [EvRequest coins_list_url]))
              coins Hc') as (tokens & Ht & Hin).
  exists (sorted_set tokens). split; [| split; [| split]].
  - unfold get_token_list, try_except, bind at 1.
    rewrite (request_first_ok e s (COINGECKO_BASE_URL ++ "/coins/list") _ Hh).
    change (fun coin : json => sym <- getkey coin "symbol" ;; py_upper sym) with symbol_upper.
    unfold bind at 1. cbn [py_iter ret]. unfold bind at 1. unfold coins_list_url in Ht. rewrite Ht. reflexivity.
  - apply sorted_set_sorted.
  - apply sorted_lt_nodup, sorted_set_sorted.
  - intros x. rewrite sorted_set_In. apply Hin.
Qed.

Lemma mapM_symbols_fail e s coins kvs :
  In (JObj kvs) coins -> assoc "symbol" kvs = None ->
  exists x, mapM symbol_upper coins e s = (Exc x, s).
Proof.
  intros Hin Hk. induction coins as [| coin coins IH]; [destruct Hin |].
  cbn [mapM]. unfold bind at 1. rewrite symbol_upper_pure.
  destruct Hin as [-> | Hin].
  - unfold symbol_upper at 1, getkey, bind. rewrite Hk. cbn. eexists. reflexivity.
  - destruct (fst (symbol_upper coin e s)) as [a | x].
    + unfold bind. destruct (IH Hin) as [x ->]. exists x. reflexivity.
    + exists x. reflexivity.
Qed.

(** When [/coins/list] answers with a list in which one coin object has
    no ["symbol"] key, the whole list is dropped: [get_token_list] prints
    the error and returns the hard-coded fallback list. *)
Theorem get_token_list_missing_symbol (e : env) (s : st) (coins : list json)
    (kvs : list (string * json))
    (Hh : http_get e (nreq s) coins_list_url = HttpOk (JArr coins))
    (Hin : In (JObj kvs) coins) (Hk : assoc "symbol" kvs = None) :
  exists x,
    get_token_list e s
    = (Ok token_list_fallback,
       mkst (S (nreq s)) (ndraw s) (nllm s)
         (log s ++ [EvRequest coins_list_url; EvPrint "Error fetching token list" x])).
Proof.
  destruct (mapM_symbols_fail e (mkst (S (nreq s)) (ndraw s) (nllm s) (log s ++ [EvRequest coins_list_url]))
              coins kvs Hin Hk) as (x & Hx).
  exists x.
  unfold get_token_list, try_except, bind at 1.
  rewrite (request_first_ok e s (COINGECKO_BASE_URL ++ "/coins/list") _ Hh).
  change (fun coin : json => sym <- getkey coin "symbol" ;; py_upper sym) with symbol_upper.
  unfold bind at 1. cbn [py_iter ret]. unfold bind at 1. unfold coins_list_url in Hx. rewrite Hx.
  unfold print_error, emit, bind, ret. cbn. rewrite <- app_assoc. reflexivity.
Qed.

(** Two well-formed coins, one of them listed twice in another case. *)
Definition good_coins : list json :=
  [JObj [("id", JStr "bitcoin"); ("symbol", JStr "btc")];
   JObj [("id", JStr "ethereum"); ("symbol", JStr "eth")];
   JObj [("symbol", JStr "BTC")]].

Definition coins_env (coins : list json) : env :=
  mkenv (fun _ _ => HttpOk (JArr coins)) (fun _ => 0%Q) 0%Z (fun _ => None) (fun t => t)
    (fun _ => None) (fun _ _ => None).

Definition list_st : st := mkst 0 0 0 [].

(** Witness: the three coins above. *)
Lemma get_token_list_symbols_witness :
  exists l,
    get_token_list (coins_env good_coins) list_st
    = (Ok l, mkst (S (nreq list_st)) (ndraw list_st) (nllm list_st)
                 (log list_st ++ [EvRequest coins_list_url])) /\
    Sorted str_lt l /\ NoDup l /\
    forall x, In x l <-> exists kvs sym,
      In (JObj kvs) good_coins /\ assoc "symbol" kvs = Some (JStr sym) /\ x = str_upper sym.
Proof.
  apply (get_token_list_symbols (coins_env good_coins) list_st good_coins eq_refl).
  repeat constructor; eexists _, _; repeat split; reflexivity.
Defined.

(** Witness: a coin without a symbol. *)
Lemma get_token_list_missing_symbol_witness :
  exists x,
    get_token_list (coins_env [JObj [("symbol", JStr "btc")]; JObj [("id", JStr "x")]]) list_st
    = (Ok token_list_fallback,
       mkst (S (nreq list_st)) (ndraw list_st) (nllm list_st)
         (log list_st ++ [EvRequest coins_list_url; EvPrint "Error fetching token list" x])).
Proof.
  apply (get_token_list_missing_symbol (coins_env [JObj [("symbol", JStr "btc")]; JObj [("id", JStr "x")]])
           list_st [JObj [("symbol", JStr "btc")]; JObj [("id", JStr "x")]]
           [("id", JStr "x")] eq_refl).
  - simpl. auto.
  - reflexivity.
Defined.

End TokenListFacts.

(* ------------------------------------------------------------------ *)
(** ** [get_historical_data]: a read-only, filtered and ordered load *)

Module HistoryFacts.

Import Py Database StoreFacts.
Local Open Scope string_scope.

Lemma mapM_pres {A B} P (f : A -> DB B) (xs : list A) :
  (forall x, preserves P (f x)) -> preserves P (mapM f xs).
Proof.
  intros Hf. induction xs as [| x xs IH]; cbn [mapM].
  - apply ret_pres.
  - apply bind_pres; [apply Hf | intros y; apply bind_pres; [exact IH | intros ys; apply ret_pres]].
Qed.

Lemma read_table_pres {R} P (t : option (list R)) : preserves P (read_table t).
Proof. destruct t; [apply ret_pres | apply raise_pres]. Qed.

Lemma to_datetime_pres P parse dates : preserves P (to_datetime parse dates).
Proof.
  apply mapM_pres. intros d. destruct (parse d); [apply ret_pres | apply raise_pres].
Qed.

(** [get_historical_data] never writes to the database: whether it returns
    the data or prints an error and returns [(None, None)], the tables are
    those it started from. *)
Theorem get_historical_data_read_only (connect_ok : bool) (parse : string -> option Z)
    (start_date end_date : option string) (s : dst) :
  store (snd (get_historical_data connect_ok parse start_date end_date s)) = store s.
Proof.
  set (P := fun s' : dst => store s' = store s).
  change (P (snd (get_historical_data connect_ok parse start_date end_date s))).
  enough (H : preserves P (get_historical_data connect_ok parse start_date end_date))
    by exact (H s eq_refl).
  unfold get_historical_data, get_historical_data_body.
  apply try_except_pres.
  - apply bind_pres; [| intros h; apply ret_pres].
    apply bind_pres; [destruct connect_ok; [apply ret_pres | apply raise_pres] | intros _].
    apply bind_pres; [intros s1 H1; exact H1 | intros d].
    apply bind_pres; [apply read_table_pres | intros mtbl].
    apply bind_pres; [apply to_datetime_pres | intros mdates].
    apply bind_pres; [apply read_table_pres | intros ttbl].
    apply bind_pres; [| intros td; apply ret_pres].
    apply mapM_pres. intros token.
    apply bind_pres; [apply read_table_pres | intros ttbl'].
    apply bind_pres; [apply to_datetime_pres | intros tdates; apply ret_pres].
  - intros x. apply bind_pres; [intros s1 H1; exact H1 | intros _; apply ret_pres].
Qed.


Lemma db_bind_ok {A B} (m : DB A) (k : A -> DB B) s b s' :
  bind m k s = (Ok b, s') -> exists a s1, m s = (Ok a, s1) /\ k a s1 = (Ok b, s').
Proof.
  unfold bind. destruct (m s) as [[a | x] s1]; intros H; [| discriminate].
  exists a, s1. split; [reflexivity | exact H].
Qed.

Lemma read_table_ok {R} (t : option (list R)) s rows s' :
  read_table t s = (Ok rows, s') -> t = Some rows /\ s' = s.
Proof. destruct t; cbn; intros H; inversion H; subst; split; reflexivity. Qed.

Lemma mapM_ok {A B} (f : A -> DB B) (xs : list A) s ys s' :
  mapM f xs s = (Ok ys, s') -> Forall2 (fun x y => exists s1 s2, f x s1 = (Ok y, s2)) xs ys.
Proof.
  revert s ys. induction xs as [| x xs IH]; intros s ys H; cbn [mapM] in H.
  - inversion H. constructor.
  - apply db_bind_ok in H as [y [s1 [Hy H]]].
    apply db_bind_ok in H as [ys' [s2 [Hys H]]].
    inversion H; subst. constructor; [exists s, s1; exact Hy | exact (IH _ _ Hys)].
Qed.

Lemma to_datetime_ok parse dates s ts s' :
  to_datetime parse dates s = (Ok ts, s') -> Forall2 (fun d t => parse d = Some t) dates ts.
Proof.
  intros H. apply mapM_ok in H. revert H. apply Forall2_impl.
  intros d t [s1 [s2 Hd]]. destruct (parse d); inversion Hd; reflexivity.
Qed.

Lemma combine_parsed {R} (key : R -> string) parse (rows : list R) (ts : list Z) :
  Forall2 (fun d t => parse d = Some t) (map key rows) ts ->
  map snd (combine ts rows) = rows /\
  Forall (fun p => parse (key (snd p)) = Some (fst p)) (combine ts rows).
Proof.
  revert ts. induction rows as [| r rows IH]; intros ts H; cbn [map] in H; inversion H; subst.
  - split; [reflexivity | constructor].
  - cbn [combine map fst snd]. destruct (IH _ H4) as [E F].
    split; [rewrite E; reflexivity | constructor; assumption].
Qed.

Lemma leb_flip (a b : string) : String.leb a b = false -> String.leb b a = true.
Proof. intros H. destruct (String.leb_total a b); congruence. Qed.

Lemma insert_by_In {R} (key : R -> string) (r x : R) rs :
  In x (insert_by key r rs) <-> r = x \/ In x rs.
Proof.
  induction rs as [| r' rs IH]; cbn [insert_by]; [cbn; tauto |].
  destruct (String.leb (key r') (key r)); cbn [In]; [rewrite IH |]; tauto.
Qed.

Lemma order_by_In {R} (key : R -> string) (x : R) rs : In x (order_by key rs) <-> In x rs.
Proof.
  unfold order_by. induction rs as [| r rs IH]; cbn [fold_right]; [tauto |].
  rewrite insert_by_In, IH. cbn [In]. tauto.
Qed.

Lemma insert_by_sorted {R} (key : R -> string) (r : R) rs :
  Sorted (fun a b => String.leb (key a) (key b) = true) rs ->
  Sorted (fun a b => String.leb (key a) (key b) = true) (insert_by key r rs).
Proof.
  induction rs as [| r' rs IH]; intros H; cbn [insert_by].
  - repeat constructor.
  - destruct (String.leb (key r') (key r)) eqn:E.
    + inversion H as [| ? ? Hs Hhd]; subst. constructor; [apply IH; exact Hs |].
      destruct rs as [| r'' rs]; cbn [insert_by]; [constructor; exact E |].
      destruct (String.leb (key r'') (key r)); constructor; [inversion Hhd; assumption | exact E].
    + constructor; [exact H | constructor; apply leb_flip; exact E].
Qed.

Lemma order_by_sorted {R} (key : R -> string) rs :
  Sorted (fun a b => String.leb (key a) (key b) = true) (order_by key rs).
Proof.
  unfold order_by. induction rs as [| r rs IH]; cbn [fold_right]; [constructor |].
  apply insert_by_sorted. exact IH.
Qed.

Lemma distinct_In (xs : list string) (y : string) : In y (distinct xs) <-> In y xs.
Proof.
  induction xs as [| x xs IH]; cbn [distinct In]; [tauto |].
  rewrite filter_In, <- IH. destruct (String.eqb_spec x y); cbn; firstorder congruence.
Qed.

Lemma distinct_NoDup (xs : list string) : NoDup (distinct xs).
Proof.
  induction xs as [| x xs IH]; cbn [distinct]; [constructor |].
  constructor.
  - intros Hin. apply filter_In in Hin as [_ Hx]. rewrite String.eqb_refl in Hx. discriminate.
  - apply NoDup_filter. exact IH.
Qed.

Lemma Forall2_fst {A B} (P : A * B -> Prop) (xs : list A) (ys : list (A * B)) :
  Forall2 (fun x y => fst y = x /\ P y) xs ys -> map fst ys = xs /\ Forall P ys.
Proof.
  induction 1 as [| x y xs ys [Hx Hy] _ [E F]]; [split; constructor |].
  cbn [map]. rewrite Hx, E. split; [reflexivity | constructor; assumption].
Qed.

(** [get_historical_data]: when it returns data, the market rows are
    exactly the rows of [market_data] whose [date] lies in the optional
    window, in [date] order, each with its date as parsed; the token frames
    come one for each distinct token of [token_data], and each holds exactly
    that token's rows in the window, in [date] order. *)
Theorem get_historical_data_ok (connect_ok : bool) (parse : string -> option Z)
    (start_date end_date : option string) (s s' : dst)
    (ms : list (Z * mrow)) (ts : list (string * list (Z * trow))) :
  get_historical_data connect_ok parse start_date end_date s = (Ok (Some (ms, ts)), s') ->
  exists mtbl ttbl,
    market_data (store s) = Some mtbl /\ token_data (store s) = Some ttbl /\
    (forall r, In r (map snd ms) <-> In r mtbl /\ date_ok start_date end_date (md_date r) = true) /\
    Sorted (fun a b => String.leb (md_date a) (md_date b) = true) (map snd ms) /\
    Forall (fun p => parse (md_date (snd p)) = Some (fst p)) ms /\
    NoDup (map fst ts) /\
    (forall token, In token (map fst ts) <-> In token (map td_token ttbl)) /\
    Forall (fun tr =>
      (forall r, In r (map snd (snd tr)) <->
                 In r ttbl /\ td_token r = fst tr /\ date_ok start_date end_date (td_date r) = true) /\
      Sorted (fun a b => String.leb (td_date a) (td_date b) = true) (map snd (snd tr)) /\
      Forall (fun p => parse (td_date (snd p)) = Some (fst p)) (snd tr)) ts.
Proof.
  intros H. unfold get_historical_data, try_except in H.
  destruct (bind (get_historical_data_body connect_ok parse start_date end_date) (fun h => ret (Some h)) s)
    as [[o | x] s1] eqn:Hb.
  2:{ unfold print_error, bind, ret in H. discriminate. }
  inversion H; subst o s1. clear H.
  apply db_bind_ok in Hb as [h [s1 [Hb Hr]]]. inversion Hr; subst h. clear Hr.
  unfold get_historical_data_body in Hb. cbv zeta in Hb.
  apply db_bind_ok in Hb as [u [s2 [Hc Hb]]].
  assert (E2 : s2 = s) by (destruct connect_ok; inversion Hc; reflexivity). subst s2.
  apply db_bind_ok in Hb as [d [s3 [Hd Hb]]]. inversion Hd; subst d s3. clear Hd.
  apply db_bind_ok in Hb as [mtbl [s4 [Hm Hb]]]. apply read_table_ok in Hm as [Hm ->].
  apply db_bind_ok in Hb as [mdates [s5 [Hmd Hb]]]. apply to_datetime_ok in Hmd.
  apply db_bind_ok in Hb as [ttbl [s6 [Htt Hb]]]. apply read_table_ok in Htt as [Htt ->].
  apply db_bind_ok in Hb as [tdata [s7 [Hmap Hb]]]. inversion Hb; subst ms ts. clear Hb.
  apply mapM_ok in Hmap.
  exists mtbl, ttbl. split; [exact Hm |]. split; [exact Htt |].
  destruct (combine_parsed md_date parse _ _ Hmd) as [Em Fm].
  split; [intros r; rewrite Em, order_by_In, filter_In; reflexivity |].
  split; [rewrite Em; apply order_by_sorted |].
  split; [exact Fm |].
  match type of Hmap with Forall2 _ ?toks _ => set (tokens := toks) in Hmap end.
  assert (Hf : map fst tdata = tokens /\
    Forall (fun tr =>
      (forall r, In r (map snd (snd tr)) <->
                 In r ttbl /\ td_token r = fst tr /\ date_ok start_date end_date (td_date r) = true) /\
      Sorted (fun a b => String.leb (td_date a) (td_date b) = true) (map snd (snd tr)) /\
      Forall (fun p => parse (td_date (snd p)) = Some (fst p)) (snd tr)) tdata).
  { apply Forall2_fst. revert Hmap. apply Forall2_impl.
    intros token y [sa [sb Hy]].
    apply db_bind_ok in Hy as [ttbl' [sc [Ht' Hy]]]. apply read_table_ok in Ht' as [Ht' ->].
    rewrite Htt in Ht'. injection Ht' as <-.
    apply db_bind_ok in Hy as [tdates [sd [Htd Hy]]]. apply to_datetime_ok in Htd.
    inversion Hy; subst y. clear Hy. cbn [fst snd].
    destruct (combine_parsed td_date parse _ _ Htd) as [Et Ft].
    split; [reflexivity |]. rewrite Et.
    split; [| split; [apply order_by_sorted | exact Ft]].
    intros r. rewrite order_by_In, filter_In, andb_true_iff, String.eqb_eq. tauto. }
  destruct Hf as [Ef Ff]. rewrite Ef. unfold tokens.
  split; [apply distinct_NoDup |]. split; [intros token; apply distinct_In | exact Ff].
Qed.


Definition hist_st : dst :=
  mkdst (mkdb (Some [mk_mrow "2024-01-02" 1 1 1; mk_mrow "2023-12-31" 3 3 3; mk_mrow "2024-01-01" 2 2 2])
              (Some [mk_trow "BTC" "2024-01-02" 1 1 1; mk_trow "ETH" "2024-01-01" 1 1 1;
                     mk_trow "BTC" "2024-01-01" 2 2 2]))
        [].

Lemma get_historical_data_ok_witness :
  get_historical_data true (fun _ => Some 0%Z) (Some "2024-01-01") None hist_st =
    (Ok (Some ([(0%Z, mk_mrow "2024-01-01" 2 2 2); (0%Z, mk_mrow "2024-01-02" 1 1 1)],
               [("BTC", [(0%Z, mk_trow "BTC" "2024-01-01" 2 2 2); (0%Z, mk_trow "BTC" "2024-01-02" 1 1 1)]);
                ("ETH", [(0%Z, mk_trow "ETH" "2024-01-01" 1 1 1)])])), hist_st) /\
  NoDup ["BTC"; "ETH"].
Proof.
  assert (H : get_historical_data true (fun _ => Some 0%Z) (Some "2024-01-01") None hist_st =
    (Ok (Some ([(0%Z, mk_mrow "2024-01-01" 2 2 2); (0%Z, mk_mrow "2024-01-02" 1 1 1)],
               [("BTC", [(0%Z, mk_trow "BTC" "2024-01-01" 2 2 2); (0%Z, mk_trow "BTC" "2024-01-02" 1 1 1)]);
                ("ETH", [(0%Z, mk_trow "ETH" "2024-01-01" 1 1 1)])])), hist_st))
    by (vm_compute; reflexivity).
  split; [exact H |].
  destruct (get_historical_data_ok _ _ _ _ _ _ _ _ H) as (mtbl & ttbl & _ & _ & _ & _ & _ & Hnd & _).
  exact Hnd.
Defined.

End HistoryFacts.
